(** * Verification of the minisource API gateway core.

    Shallow embedding of the reverse proxy ([internal/proxy]), the circuit
    breaker middleware, the local token-bucket rate limiter and the JWT
    authenticator.  Byte strings are Rocq [string]s, Go [int] and durations
    are [Z] (nanoseconds for [time.Duration] and [time.Time]), float64
    token counts are exact rationals [Q]. *)

From Stdlib Require Import String Ascii ZArith QArith Qround Lia Lqa.
From stdpp Require Import base gmap strings list pretty.
Import ListNotations.
Open Scope string_scope.

(* ------------------------------------------------------------------ *)
(** ** Header names: [http.CanonicalHeaderKey] and hop-by-hop filtering *)
Module Headers.

Definition hyphen : ascii := "-"%char.

(** ASCII case mapping as in Go's textproto ([c -= toLower], [c += toLower]). *)
Definition to_lower (c : ascii) : ascii :=
  let n := nat_of_ascii c in
  if (65 <=? n)%nat && (n <=? 90)%nat then ascii_of_nat (n + 32) else c.

Definition to_upper (c : ascii) : ascii :=
  let n := nat_of_ascii c in
  if (97 <=? n)%nat && (n <=? 122)%nat then ascii_of_nat (n - 32) else c.

(** [validHeaderFieldByte]: RFC 7230 tchar. *)
Definition validHeaderFieldByte (c : ascii) : bool :=
  let n := nat_of_ascii c in
  ((48 <=? n) && (n <=? 57))%nat || ((65 <=? n) && (n <=? 90))%nat
  || ((97 <=? n) && (n <=? 122))%nat
  || existsb (fun d => Ascii.eqb c d)
       ["!"; "#"; "$"; "%"; "&"; "'"; "*"; "+"; "-"; "."; "^"; "_"; "`"; "|"; "~"]%char.

Fixpoint canon_loop (upper : bool) (s : string) : string :=
  match s with
  | EmptyString => EmptyString
  | String c s' =>
      let c' := if upper then to_upper c else to_lower c in
      String c' (canon_loop (Ascii.eqb c' hyphen) s')
  end.

Fixpoint all_valid (s : string) : bool :=
  match s with
  | EmptyString => true
  | String c s' => validHeaderFieldByte c && all_valid s'
  end.

(** [http.CanonicalHeaderKey]: a key with a byte that is not a token byte
    (a space included) is returned unchanged; otherwise the first letter
    and every letter after a hyphen is upper case, all others lower case. *)
Definition CanonicalHeaderKey (s : string) : string :=
  if all_valid s then canon_loop true s else s.

Definition hopByHopHeaders : list string :=
  ["Connection"; "Keep-Alive"; "Proxy-Authenticate"; "Proxy-Authorization";
   "Te"; "Trailers"; "Transfer-Encoding"; "Upgrade"].

(** [isHopByHopHeader] (proxy.go): lookup of the canonical key in the map. *)
Definition isHopByHopHeader (header : string) : bool :=
  existsb (String.eqb (CanonicalHeaderKey header)) hopByHopHeaders.

Fixpoint lower_string (s : string) : string :=
  match s with
  | EmptyString => EmptyString
  | String c s' => String (to_lower c) (lower_string s')
  end.

(** Header names compare case-insensitively. *)
Definition same_name (a b : string) : bool := String.eqb (lower_string a) (lower_string b).

(** A header list as fasthttp keeps it: [Set] replaces every entry of the
    same name and appends the new one. *)
Definition header_list := list (string * string).

Definition hdr_set (k v : string) (hs : header_list) : header_list :=
  (List.filter (fun kv => negb (same_name (fst kv) k)) hs ++ [(k, v)])%list.

Definition hdr_get (k : string) (hs : header_list) : option string :=
  match List.filter (fun kv => same_name (fst kv) k) hs with
  | [] => None
  | kv :: _ => Some (snd kv)
  end.

(** The VisitAll loops of [Forward]: every non hop-by-hop header is set. *)
Fixpoint copy_headers (src : header_list) (dst : header_list) : header_list :=
  match src with
  | [] => dst
  | (k, v) :: rest =>
      copy_headers rest (if isHopByHopHeader k then dst else hdr_set k v dst)
  end.

End Headers.

(* ------------------------------------------------------------------ *)
(** ** The reverse proxy: [ServiceProxy.Forward] (internal/proxy/proxy.go) *)
Module Proxy.
Import Headers.

(** [strings.HasPrefix] / [strings.TrimPrefix]. *)
Fixpoint HasPrefix (s prefix : string) {struct prefix} : bool :=
  match prefix with
  | EmptyString => true
  | String p pr =>
      match s with
      | String c s' => Ascii.eqb p c && HasPrefix s' pr
      | EmptyString => false
      end
  end.

Fixpoint TrimPrefix (s prefix : string) {struct prefix} : string :=
  match prefix with
  | EmptyString => s
  | String p pr =>
      match s with
      | String c s' =>
          if Ascii.eqb p c then
            (if HasPrefix s' pr then TrimPrefix s' pr else s)
          else s
      | EmptyString => s
      end
  end.

Record ServiceClient := {
  Name : string;
  URL : string;
  HealthPath : string;
  Healthy : bool
}.

(** The client request as [Forward] reads it from [fiber.Ctx]. *)
Record ClientRequest := {
  rq_method : string;
  rq_path : string;          (* URI().Path() *)
  rq_query : string;         (* URI().QueryString() *)
  rq_headers : header_list;
  rq_body : string;
  rq_host : string;
  rq_ip : string;            (* c.IP() *)
  rq_protocol : string       (* c.Protocol() *)
}.

(** The upstream request built in a fresh [fasthttp.AcquireRequest()]. *)
Record UpstreamRequest := {
  up_uri : string;
  up_method : string;
  up_headers : header_list;
  up_body : string
}.

Record UpstreamResponse := {
  ur_status : Z;
  ur_headers : header_list;
  ur_body : string
}.

Inductive Body :=
| JSONBody (fields : list (string * string))
| RawBody (b : string).

(** The client response: status, headers and body as written on [c]. *)
Record Response := {
  rs_status : Z;
  rs_headers : header_list;
  rs_body : Body
}.

Definition StatusBadGateway : Z := 502.
Definition StatusServiceUnavailable : Z := 503.

(** [c.Status(code).JSON(m)]: fiber sets the JSON content type. *)
Definition json_response (code : Z) (hs : header_list) (m : list (string * string)) : Response :=
  {| rs_status := code;
     rs_headers := hdr_set "Content-Type" "application/json" hs;
     rs_body := JSONBody m |}.

(** The services map behind [GetService]. *)
Abbreviation registry := (gmap string ServiceClient).

(** Outcome of [svc.Client.Do(req, resp)]: a transport error message or a
    response. *)
Abbreviation transport := (ServiceClient -> UpstreamRequest -> string + UpstreamResponse).

(** Steps 2 of [Forward]: the upstream path and target URL. *)
Definition upstream_path (path stripPrefix : string) : string :=
  if String.eqb stripPrefix "" then path
  else let p := TrimPrefix path stripPrefix in
       if String.eqb p "" then "/" else p.

Definition target_url (base path query stripPrefix : string) : string :=
  let t := base ++ upstream_path path stripPrefix in
  if String.eqb query "" then t else t ++ "?" ++ query.

(** The header part of the upstream request: the non hop-by-hop client
    headers, then the forwarding headers. *)
Definition upstream_headers (rq : ClientRequest) (request_id : string) : header_list :=
  let h := copy_headers (rq_headers rq) [] in
  let h := hdr_set "X-Forwarded-For" (rq_ip rq) h in
  let h := hdr_set "X-Forwarded-Host" (rq_host rq) h in
  let h := hdr_set "X-Forwarded-Proto" (rq_protocol rq) h in
  let h := hdr_set "X-Real-IP" (rq_ip rq) h in
  hdr_set "X-Request-ID" request_id h.

(** [Forward(c, serviceName, stripPrefix)].  [resp_hdrs] are the headers
    already on the client response (set by earlier middleware) and
    [request_id] is [c.GetRespHeader("X-Request-ID")].  The result is the
    upstream request sent, if any, and the client response. *)
Definition Forward (services : registry) (do_ : transport)
    (rq : ClientRequest) (resp_hdrs : header_list) (request_id : string)
    (serviceName stripPrefix : string) : option UpstreamRequest * Response :=
  match services !! serviceName with
  | None =>
      (None, json_response StatusBadGateway resp_hdrs
               [("error", "service " ++ serviceName ++ " not found")])
  | Some svc =>
      if negb (Healthy svc) then
        (None, json_response StatusServiceUnavailable resp_hdrs
                 [("error", "service " ++ serviceName ++ " is unavailable")])
      else
        let req := {| up_uri := target_url (URL svc) (rq_path rq) (rq_query rq) stripPrefix;
                      up_method := rq_method rq;
                      up_headers := upstream_headers rq request_id;
                      up_body := rq_body rq |} in
        match do_ svc req with
        | inl err =>
            (Some req, json_response StatusBadGateway resp_hdrs
                         [("error", "upstream request failed"); ("details", err)])
        | inr resp =>
            (Some req, {| rs_status := ur_status resp;
                          rs_headers := copy_headers (ur_headers resp) resp_hdrs;
                          rs_body := RawBody (ur_body resp) |})
        end
  end.

End Proxy.


(* ------------------------------------------------------------------ *)
(** ** The local token-bucket limiter (internal/middleware/ratelimit.go) *)
Module RateLimit.
Import Headers.

(** [time.Second] in nanoseconds; instants are nanoseconds since the epoch. *)
Definition Second : Z := 1000000000.

(** [t.Unix()]: whole seconds, rounded down. *)
Definition Unix (t : Z) : Z := Z.div t Second.

(** [elapsed := now.Sub(last).Seconds()]. *)
Definition Seconds (d : Z) : Q := (inject_Z d / inject_Z Second)%Q.

(** The package's own [min(a, b float64)]. *)
Definition qmin (a b : Q) : Q := if Qlt_le_dec a b then a else b.

(** [int(f)]: conversion of a float to int truncates toward zero. *)
Definition int_of_float (f : Q) : Z :=
  if Qle_bool 0 f then Qfloor f else (- Qfloor (- f)%Q)%Z.

Record rateBucket := {
  tokens : Q;
  lastCheck : Z
}.

Abbreviation buckets := (gmap string rateBucket).

(** [LocalLimiter.allow(key, rps, burst)] at instant [now].  The bucket is
    a pointer stored in the map: its update is kept even when the return
    statement panics.  The second component is [None] for the run-time
    panic of [time.Second / time.Duration(rps)] with [rps = 0], otherwise
    [(allowed, remaining, resetUnix)]. *)
Definition allow (requests : buckets) (key : string) (rps burst : Z) (now : Z)
    : buckets * option (bool * Z * Z) :=
  match requests !! key with
  | None =>
      (<[key := {| tokens := inject_Z (burst - 1)%Z; lastCheck := now |}]> requests,
       Some (true, (burst - 1)%Z, Unix (now + Second)))
  | Some bucket =>
      let elapsed := Seconds (now - lastCheck bucket) in
      let t := qmin (inject_Z burst) (tokens bucket + elapsed * inject_Z rps)%Q in
      if Qle_bool 1 t then
        let t' := (t - 1)%Q in
        (<[key := {| tokens := t'; lastCheck := now |}]> requests,
         Some (true, int_of_float t', Unix (now + Second)))
      else
        (<[key := {| tokens := t; lastCheck := now |}]> requests,
         if Z.eqb rps 0 then None
         else Some (false, 0%Z, Unix (now + Z.quot Second rps)))
  end.

(** The sweeper [cleanup]: one tick at instant [now]. *)
Definition cleanup (requests : buckets) (interval now : Z) : buckets :=
  filter (fun kv : string * rateBucket => ~ (lastCheck kv.2 < now - interval)%Z) requests.

(** What happens to the limiter map: calls to [allow] and sweeper ticks,
    each at its instant (read from the monotonic clock under the mutex). *)
Inductive op :=
| OAllow (key : string) (now : Z)
| OCleanup (interval : Z) (now : Z).

Definition op_time (o : op) : Z :=
  match o with OAllow _ n => n | OCleanup _ n => n end.

Definition step (rps burst : Z) (st : buckets) (o : op) : buckets :=
  match o with
  | OAllow key now => fst (allow st key rps burst now)
  | OCleanup interval now => cleanup st interval now
  end.

Definition run (rps burst : Z) (st : buckets) (ops : list op) : buckets :=
  fold_left (step rps burst) ops st.

(** Instants read from the monotonic clock never decrease. *)
Fixpoint monotone_from (T : Z) (ops : list op) : Prop :=
  match ops with
  | [] => True
  | o :: rest => (T <= op_time o)%Z /\ monotone_from (op_time o) rest
  end.

Fixpoint last_time (T : Z) (ops : list op) : Z :=
  match ops with
  | [] => T
  | o :: rest => last_time (op_time o) rest
  end.

Record RateLimitConfig := {
  Enabled : bool;
  RequestsPerSec : Z;
  BurstSize : Z
}.

Record RouteLimit := {
  route_rps : Z;
  route_burst : Z
}.

(** [rps] and [burst]: the route's [RateLimit] overrides the global ones. *)
Definition eff_rps (cfg : RateLimitConfig) (route_limit : option RouteLimit) : Z :=
  match route_limit with Some r => route_rps r | None => RequestsPerSec cfg end.

Definition eff_burst (cfg : RateLimitConfig) (route_limit : option RouteLimit) : Z :=
  match route_limit with Some r => route_burst r | None => BurstSize cfg end.

(** Outcome of the middleware: the chain continues, or 429 with its JSON body. *)
Inductive MwResult :=
| MwNext (hs : header_list)
| MwDenied (status : Z) (hs : header_list) (body : list (string * string)).

(** [RateLimiter.Middleware] over the local limiter ([useRedis = false],
    or a Redis call that failed).  [route_limit] is the [RateLimit] field
    of the route on the context, [key] the result of [createKey], [hs] the
    response headers so far, and [now_resp] the later clock reading used for
    [retry_after].  [None] is the panic of [allow]. *)
Definition Middleware (cfg : RateLimitConfig) (route_limit : option RouteLimit)
    (key : string) (now now_resp : Z) (requests : buckets) (hs : header_list)
    : buckets * option MwResult :=
  if negb (Enabled cfg) then (requests, Some (MwNext hs)) else
  let rps := eff_rps cfg route_limit in
  let burst := eff_burst cfg route_limit in
  let '(st, out) := allow requests key rps burst now in
  match out with
  | None => (st, None)
  | Some (allowed, remaining, resetTime) =>
      let hs := hdr_set "X-RateLimit-Limit" (pretty rps) hs in
      let hs := hdr_set "X-RateLimit-Remaining" (pretty remaining) hs in
      let hs := hdr_set "X-RateLimit-Reset" (pretty resetTime) hs in
      if allowed then (st, Some (MwNext hs))
      else (st, Some (MwDenied 429 (hdr_set "Content-Type" "application/json" hs)
                        [("error", "rate_limit_exceeded");
                         ("message", "Too many requests, please try again later");
                         ("retry_after", pretty (resetTime - Unix now_resp)%Z)]))
  end.

Definition mw_headers (r : MwResult) : header_list :=
  match r with MwNext hs => hs | MwDenied _ hs _ => hs end.

Definition mw_allowed (r : MwResult) : bool :=
  match r with MwNext _ => true | MwDenied _ _ _ => false end.

End RateLimit.

(* ------------------------------------------------------------------ *)
(** ** Circuit breakers (internal/middleware/circuit.go over sony/gobreaker) *)
Module Breaker.
Local Open Scope Z_scope.

(** The breaker itself is [github.com/sony/gobreaker] (a dependency): its
    [Counts], [currentState], [toNewGeneration], [setState],
    [beforeRequest], [afterRequest], [onSuccess], [onFailure] and [Execute]
    are written out below as that library implements them.  Counters are
    [uint32]; instants and durations are nanoseconds, [None] is the zero
    [time.Time]. *)

Definition u32 (x : Z) : Z := Z.modulo x (2 ^ 32).

Inductive State := StateClosed | StateHalfOpen | StateOpen.

Definition state_eqb (a b : State) : bool :=
  match a, b with
  | StateClosed, StateClosed | StateHalfOpen, StateHalfOpen | StateOpen, StateOpen => true
  | _, _ => false
  end.

Record Counts := {
  Requests : Z;
  TotalSuccesses : Z;
  TotalFailures : Z;
  ConsecutiveSuccesses : Z;
  ConsecutiveFailures : Z
}.

Definition zero_counts : Counts := {| Requests := 0; TotalSuccesses := 0; TotalFailures := 0;
  ConsecutiveSuccesses := 0; ConsecutiveFailures := 0 |}.

Definition onRequest (c : Counts) : Counts :=
  {| Requests := u32 (Requests c + 1); TotalSuccesses := TotalSuccesses c;
     TotalFailures := TotalFailures c; ConsecutiveSuccesses := ConsecutiveSuccesses c;
     ConsecutiveFailures := ConsecutiveFailures c |}.

Definition onSuccessCounts (c : Counts) : Counts :=
  {| Requests := Requests c; TotalSuccesses := u32 (TotalSuccesses c + 1);
     TotalFailures := TotalFailures c; ConsecutiveSuccesses := u32 (ConsecutiveSuccesses c + 1);
     ConsecutiveFailures := 0 |}.

Definition onFailureCounts (c : Counts) : Counts :=
  {| Requests := Requests c; TotalSuccesses := TotalSuccesses c;
     TotalFailures := u32 (TotalFailures c + 1); ConsecutiveSuccesses := 0;
     ConsecutiveFailures := u32 (ConsecutiveFailures c + 1) |}.

Record CircuitBreaker := {
  maxRequests : Z;
  interval : Z;
  timeout : Z;
  readyToTrip : Counts -> bool;
  state : State;
  generation : Z;
  counts : Counts;
  expiry : option Z
}.

Definition with_state (cb : CircuitBreaker) (st : State) (gen : Z) (c : Counts) (e : option Z)
    : CircuitBreaker :=
  {| maxRequests := maxRequests cb; interval := interval cb; timeout := timeout cb;
     readyToTrip := readyToTrip cb; state := st; generation := gen; counts := c; expiry := e |}.

Definition with_counts (cb : CircuitBreaker) (c : Counts) : CircuitBreaker :=
  with_state cb (state cb) (generation cb) c (expiry cb).

Definition toNewGeneration (cb : CircuitBreaker) (now : Z) : CircuitBreaker :=
  let e := match state cb with
           | StateClosed => if Z.eqb (interval cb) 0 then None else Some (now + interval cb)
           | StateOpen => Some (now + timeout cb)
           | StateHalfOpen => None
           end in
  with_state cb (state cb) (generation cb + 1) zero_counts e.

Definition setState (cb : CircuitBreaker) (st : State) (now : Z) : CircuitBreaker :=
  if state_eqb (state cb) st then cb
  else toNewGeneration (with_state cb st (generation cb) (counts cb) (expiry cb)) now.

(** [expiry.Before(now)]. *)
Definition expired (e : option Z) (now : Z) : bool :=
  match e with None => true | Some t => Z.ltb t now end.

Definition currentState (cb : CircuitBreaker) (now : Z) : CircuitBreaker :=
  match state cb with
  | StateClosed =>
      match expiry cb with
      | Some t => if Z.ltb t now then toNewGeneration cb now else cb
      | None => cb
      end
  | StateOpen => if expired (expiry cb) now then setState cb StateHalfOpen now else cb
  | StateHalfOpen => cb
  end.

Inductive BreakerError := ErrOpenState | ErrTooManyRequests.

Definition beforeRequest (cb : CircuitBreaker) (now : Z) : CircuitBreaker * (Z + BreakerError) :=
  let cb := currentState cb now in
  match state cb with
  | StateOpen => (cb, inr ErrOpenState)
  | StateHalfOpen =>
      if Z.leb (maxRequests cb) (Requests (counts cb)) then (cb, inr ErrTooManyRequests)
      else (with_counts cb (onRequest (counts cb)), inl (generation cb))
  | StateClosed => (with_counts cb (onRequest (counts cb)), inl (generation cb))
  end.

Definition onSuccess (cb : CircuitBreaker) (now : Z) : CircuitBreaker :=
  match state cb with
  | StateClosed => with_counts cb (onSuccessCounts (counts cb))
  | StateHalfOpen =>
      let cb := with_counts cb (onSuccessCounts (counts cb)) in
      if Z.leb (maxRequests cb) (ConsecutiveSuccesses (counts cb)) then setState cb StateClosed now
      else cb
  | StateOpen => cb
  end.

Definition onFailure (cb : CircuitBreaker) (now : Z) : CircuitBreaker :=
  match state cb with
  | StateClosed =>
      let cb := with_counts cb (onFailureCounts (counts cb)) in
      if readyToTrip cb (counts cb) then setState cb StateOpen now else cb
  | StateHalfOpen => setState cb StateOpen now
  | StateOpen => cb
  end.

Definition afterRequest (cb : CircuitBreaker) (before : Z) (success : bool) (now : Z)
    : CircuitBreaker :=
  let cb := currentState cb now in
  if negb (Z.eqb (generation cb) before) then cb
  else if success then onSuccess cb now else onFailure cb now.

(** [cb.Execute(req)]: [now] is the instant of [beforeRequest], [now'] that
    of [afterRequest], [success] is [isSuccessful(err)] ([err == nil]) for
    the error the request returned.  The error is [Some] when the request
    was not run. *)
Definition Execute (cb : CircuitBreaker) (now now' : Z) (success : bool)
    : CircuitBreaker * option BreakerError :=
  match beforeRequest cb now with
  | (cb, inr e) => (cb, Some e)
  | (cb, inl gen) => (afterRequest cb gen success now', None)
  end.

Record CircuitConfig := {
  cc_Enabled : bool;
  cc_MaxRequests : Z;
  cc_Interval : Z;
  cc_Timeout : Z;
  FailureThreshold : Z
}.

(** The [ReadyToTrip] closure of [GetBreaker]:
    [counts.Requests >= FailureThreshold && TotalFailures/Requests >= 0.5].
    On [uint32] operands the float64 quotient is at least 0.5 exactly when
    [2 * TotalFailures >= Requests] (rounding is monotone and a quotient
    below 0.5 stays at least [1/(2 Requests) > 2^-33] below it); [x/0] is
    NaN for [x = 0] and +Inf otherwise. *)
Definition failureRatioAtLeastHalf (c : Counts) : bool :=
  if Z.eqb (Requests c) 0 then Z.ltb 0 (TotalFailures c)
  else Z.leb (Requests c) (2 * TotalFailures c).

Definition ReadyToTrip (cfg : CircuitConfig) (c : Counts) : bool :=
  Z.leb (FailureThreshold cfg) (Requests c) && failureRatioAtLeastHalf c.

(** [gobreaker.NewCircuitBreaker(Settings{...})] as [GetBreaker] builds it. *)
Definition NewCircuitBreaker (cfg : CircuitConfig) (now : Z) : CircuitBreaker :=
  toNewGeneration
    {| maxRequests := if Z.eqb (cc_MaxRequests cfg) 0 then 1 else cc_MaxRequests cfg;
       interval := if Z.leb (cc_Interval cfg) 0 then 0 else cc_Interval cfg;
       timeout := if Z.leb (cc_Timeout cfg) 0 then 60000000000 else cc_Timeout cfg;
       readyToTrip := ReadyToTrip cfg;
       state := StateClosed; generation := 0; counts := zero_counts; expiry := None |} now.

Abbreviation breakers := (gmap string CircuitBreaker).

(** [GetBreaker(serviceName)]: the existing breaker, or a new one stored. *)
Definition GetBreaker (cfg : CircuitConfig) (m : breakers) (serviceName : string) (now : Z)
    : breakers * CircuitBreaker :=
  match m !! serviceName with
  | Some cb => (m, cb)
  | None => let cb := NewCircuitBreaker cfg now in (<[serviceName := cb]> m, cb)
  end.

(** The parts of [config.Route] the middleware reads. *)
Record Route := {
  route_Service : string;
  route_CircuitBreaker : bool
}.

(** Outcome of [CircuitBreakerManager.Middleware]: plain [c.Next()], the
    chain run inside [cb.Execute], or a 503 rejection with its JSON body. *)
Inductive CbResult :=
| CbNext
| CbRan
| CbRejected (status : Z) (body : list (string * string)).

(** [next_status] is [c.Response().StatusCode()] after [c.Next()] and
    [next_ok] whether [c.Next()] returned [nil]; the function handed to
    [Execute] fails when the status is 5xx or [c.Next()] failed. *)
Definition Middleware (cfg : CircuitConfig) (m : breakers) (service : option string)
    (route : option Route) (now now' : Z) (next_status : Z) (next_ok : bool)
    : breakers * CbResult :=
  if negb (cc_Enabled cfg) then (m, CbNext) else
  match service with
  | None => (m, CbNext)
  | Some serviceName =>
      if String.eqb serviceName "" || String.eqb serviceName "gateway" then (m, CbNext) else
      let skip := match route with
                  | Some r => negb (route_CircuitBreaker r)
                  | None => false
                  end in
      if skip then (m, CbNext) else
      let '(m, cb) := GetBreaker cfg m serviceName now in
      let '(cb', err) := Execute cb now now' (Z.ltb next_status 500 && next_ok) in
      (<[serviceName := cb']> m,
       match err with
       | Some ErrOpenState =>
           CbRejected 503 [("error", "service_unavailable");
                           ("message", "Service temporarily unavailable, please try again later");
                           ("service", serviceName)]
       | Some ErrTooManyRequests =>
           CbRejected 503 [("error", "too_many_requests");
                           ("message", "Service is recovering, please try again");
                           ("service", serviceName)]
       | None => CbRan
       end)
  end.

(** [State.String()] of gobreaker. *)
Definition State_String (s : State) : string :=
  match s with
  | StateClosed => "closed"
  | StateHalfOpen => "half-open"
  | StateOpen => "open"
  end.

(** [cb.State()]: [currentState(time.Now())], which also updates the breaker. *)
Definition cb_State (cb : CircuitBreaker) (now : Z) : CircuitBreaker * State :=
  let cb := currentState cb now in (cb, state cb).

(** [GetState(serviceName)]: the breakers (the looked-up one updated in
    place) and the reported state. *)
Definition GetState (m : breakers) (serviceName : string) (now : Z) : breakers * State :=
  match m !! serviceName with
  | None => (m, StateClosed)
  | Some cb => let '(cb', st) := cb_State cb now in (<[serviceName := cb']> m, st)
  end.

(** [GetAllStates()]: [clock name] is the instant at which the loop calls
    [cb.State()] on the breaker of [name]; each entry is handled on its own,
    so the iteration order does not matter. *)
Definition GetAllStates (m : breakers) (clock : string -> Z) : breakers * gmap string string :=
  (map_imap (fun name cb => Some (fst (cb_State cb (clock name)))) m,
   map_imap (fun name cb => Some (State_String (snd (cb_State cb (clock name))))) m).

End Breaker.

Module Auth.
Import Headers Proxy.
Local Open Scope Z_scope.

(** [AuthConfig] (auth.go); [PublicPaths] maps a path to its methods. *)
Record AuthConfig := {
  JWTSecret : string;
  PublicPaths : gmap string (list string);
  HeaderName : string;
  TokenPrefix : string;
  ContextKey : string;
  SkipPrefixes : list string
}.

Definition DefaultAuthConfig (secret : string) : AuthConfig :=
  {| JWTSecret := secret; PublicPaths := empty; HeaderName := "Authorization";
     TokenPrefix := "Bearer "; ContextKey := "user";
     SkipPrefixes := ["/health"; "/ready"; "/live"; "/metrics"] |}.

(** [Claims]: the custom fields and the registered [exp] and [nbf]
    claims, as whole Unix seconds ([NumericDate] at the default second
    precision); [None] is an absent claim.  [iat] is not checked by the
    default validator of jwt v5 and is left out. *)
Record Claims := {
  UserID : string;
  TenantID : string;
  Email : string;
  Roles : list string;
  ExpiresAt : option Z;
  NotBefore : option Z
}.

(** The [alg] of a token's header, as jwt v5 resolves it. *)
Inductive SigningMethod := HS256 | HS384 | HS512 | RS256 | ES256 | EdDSA | SigNone.

Definition is_hmac (m : SigningMethod) : bool :=
  match m with HS256 | HS384 | HS512 => true | _ => false end.

(** A token string as [ParseUnverified] splits and decodes it: its
    method, the key its HMAC signature was computed with, and its claims.
    The base64url/JSON wire decoding is the [decode] argument below
    ([None]: malformed token). *)
Record Token := {
  Method : SigningMethod;
  SignedWith : string;
  TokenClaims : Claims
}.

Inductive JwtError :=
| ErrTokenMalformed | ErrTokenUnverifiable | ErrTokenSignatureInvalid | ErrTokenInvalidClaims.

Definition instant (secs : Z) : Z := secs * RateLimit.Second.

(** [Validator.Validate] with no option set: [exp], when present, must
    satisfy [now.Before(exp)]; [nbf], when present, [!now.Before(nbf)]. *)
Definition Validate (c : Claims) (now : Z) : bool :=
  match ExpiresAt c with Some e => Z.ltb now (instant e) | None => true end
  && match NotBefore c with Some n => negb (Z.ltb now (instant n)) | None => true end.

Section Parse.
Variable decode : string -> option Token.

(** [jwt.ParseWithClaims] with the key function of [validateToken]: it
    refuses non-HMAC methods; the HMAC check succeeds exactly when the
    signature was computed with the secret. *)
Definition ParseWithClaims (tokenString secret : string) (now : Z) : JwtError + Claims :=
  match decode tokenString with
  | None => inl ErrTokenMalformed
  | Some tk =>
      if negb (is_hmac (Method tk)) then inl ErrTokenUnverifiable
      else if negb (String.eqb (SignedWith tk) secret) then inl ErrTokenSignatureInvalid
      else if Validate (TokenClaims tk) now then inr (TokenClaims tk)
      else inl ErrTokenInvalidClaims
  end.

(** [validateToken]: the error is the message of the [fiber.Error]. *)
Definition validateToken (tokenString secret : string) (now : Z) : string + Claims :=
  match ParseWithClaims tokenString secret now with
  | inl _ => inl "Invalid token"
  | inr claims =>
      match ExpiresAt claims with
      | Some e => if Z.ltb (instant e) now then inl "Token expired" else inr claims
      | None => inr claims
      end
  end.

End Parse.

(** [strings.EqualFold] on ASCII text. *)
Definition EqualFold (a b : string) : bool := same_name a b.

(** [c.Get(key)]: the first value of the header, [""] when absent. *)
Definition c_Get (k : string) (hs : header_list) : string :=
  match hdr_get k hs with Some v => v | None => "" end.

(** The parts of the request context [Auth] reads: path, method, request
    headers and the [isPublic] local ([None] when unset or not a bool). *)
Record Ctx := {
  cx_path : string;
  cx_method : string;
  cx_headers : header_list;
  cx_isPublic : option bool
}.

(** Outcome of [Auth]: [c.Next()] with the request headers and the claims
    stored in the locals (if any), or a JSON error response. *)
Inductive AuthResult :=
| AuthNext (hs : header_list) (user : option Claims)
| AuthDenied (status : Z) (body : list (string * string)).

Definition StatusUnauthorized : Z := 401.

Definition unauthorized (msg : string) : AuthResult :=
  AuthDenied StatusUnauthorized [("error", "unauthorized"); ("message", msg)].

(** The [X-User-*] headers set for downstream services. *)
Definition user_headers (claims : Claims) (hs : header_list) : header_list :=
  let hs := hdr_set "X-User-ID" (UserID claims) hs in
  let hs := hdr_set "X-Tenant-ID" (TenantID claims) hs in
  let hs := hdr_set "X-User-Email" (Email claims) hs in
  if Nat.ltb 0 (length (Roles claims))
  then hdr_set "X-User-Roles" (String.concat "," (Roles claims)) hs
  else hs.

Definition public_path (cfg : AuthConfig) (path method : string) : bool :=
  match PublicPaths cfg !! path with
  | Some methods => existsb (fun m => EqualFold m method) methods
  | None => false
  end.

(** [Auth(cfg)] applied to one request at instant [now]. *)
Definition Auth (cfg : AuthConfig) (decode : string -> option Token) (now : Z) (cx : Ctx)
    : AuthResult :=
  let path := cx_path cx in
  let method := cx_method cx in
  let hs := cx_headers cx in
  if existsb (fun prefix => HasPrefix path prefix) (SkipPrefixes cfg) then AuthNext hs None else
  if match cx_isPublic cx with Some true => true | _ => false end then AuthNext hs None else
  if public_path cfg path method then AuthNext hs None else
  let authHeader := c_Get (HeaderName cfg) hs in
  if String.eqb authHeader "" then unauthorized "Missing authorization header" else
  let tokenString := TrimPrefix authHeader (TokenPrefix cfg) in
  if String.eqb tokenString authHeader then unauthorized "Invalid authorization format" else
  match validateToken decode tokenString (JWTSecret cfg) now with
  | inl msg => unauthorized msg
  | inr claims => AuthNext (user_headers claims hs) (Some claims)
  end.

End Auth.

(* ------------------------------------------------------------------ *)
(** ** Health checks of the service proxy (proxy.go) and the readiness
    handler (internal/handler/health.go) *)
Module Health.
Import Headers Proxy.
Local Open Scope Z_scope.

(** [setServiceHealth]: the [Healthy] flag of a registered service is
    overwritten ([LastCheck], written alongside, is never read); an unknown
    name changes nothing. *)
Definition setServiceHealth (services : registry) (name : string) (healthy : bool) : registry :=
  match services !! name with
  | Some svc =>
      <[name := {| Name := Name svc; URL := URL svc; HealthPath := HealthPath svc;
                   Healthy := healthy |}]> services
  | None => services
  end.

(** Outcome of [svc.Client.DoTimeout(req, resp, 5s)] for a GET of a URI:
    a transport error or the status code. *)
Abbreviation probe := (ServiceClient -> string -> string + Z).

(** [HealthCheck(serviceName)]: the new registry and the returned flag. *)
Definition HealthCheck (services : registry) (do_ : probe) (serviceName : string)
    : registry * bool :=
  match services !! serviceName with
  | None => (services, false)
  | Some svc =>
      match do_ svc (URL svc ++ HealthPath svc) with
      | inl _ => (setServiceHealth services serviceName false, false)
      | inr code =>
          let healthy := Z.leb 200 code && Z.ltb code 300 in
          (setServiceHealth services serviceName healthy, healthy)
      end
  end.

(** [GetServicesHealth]: name to [Healthy]. *)
Definition GetServicesHealth (services : registry) : gmap string bool :=
  fmap Healthy services.

(** [HealthHandler.Ready]: status code and [status] field; the loop with
    [break] computes whether every value of the map is [true]. *)
Definition Ready (services : registry) : Z * string :=
  let allHealthy := forallb snd (map_to_list (GetServicesHealth services)) in
  if allHealthy then (200, "ready") else (503, "not_ready").

End Health.

(* ------------------------------------------------------------------ *)
(** ** The router (internal/router/router.go) *)
Module Router.
Import Headers Proxy.

(** The parts of [config.Route] the router reads. *)
Record RouteCfg := {
  r_Path : string;
  r_Service : string;
  r_Methods : list string;
  r_Public : bool;
  r_StripPrefix : bool
}.

(** [strings.HasSuffix]. *)
Definition HasSuffix (s suffix : string) : bool :=
  let n := String.length s in
  let m := String.length suffix in
  Nat.leb m n && String.eqb (substring (n - m) m s) suffix.

(** [strings.ToUpper] on ASCII text. *)
Fixpoint ToUpper (s : string) : string :=
  match s with
  | EmptyString => EmptyString
  | String c s' => String (to_upper c) (ToUpper s')
  end.

(** [matchesPath(requestPath, routePath)]. *)
Definition matchesPath (requestPath routePath : string) : bool :=
  if String.eqb requestPath routePath then true
  else if HasPrefix requestPath routePath then
    let remaining := TrimPrefix requestPath routePath in
    String.eqb remaining "" || HasPrefix remaining "/"
  else false.

(** [containsMethod(methods, method)]. *)
Definition containsMethod (methods : list string) (method : string) : bool :=
  existsb (fun m => Auth.EqualFold m method) methods.

(** [IsPublicRoute(path, method)]: the first route in configuration order. *)
Fixpoint IsPublicRoute (routes : list RouteCfg) (path method : string) : bool :=
  match routes with
  | [] => false
  | route :: rest =>
      if matchesPath path (r_Path route) && containsMethod (r_Methods route) method
      then r_Public route
      else IsPublicRoute rest path method
  end.

(** [GetRouteForPath(path, method)]. *)
Fixpoint GetRouteForPath (routes : list RouteCfg) (path method : string) : option RouteCfg :=
  match routes with
  | [] => None
  | route :: rest =>
      if matchesPath path (r_Path route) && containsMethod (r_Methods route) method
      then Some route
      else GetRouteForPath rest path method
  end.

(** The methods of the [switch] of [setupRoute]. *)
Definition routed_methods : list string := ["GET"; "POST"; "PUT"; "DELETE"; "PATCH"; "OPTIONS"].

(** One registration through fiber's [app.Get], [app.Post], ...: fiber v2's
    [app.Get(path, h)] is [app.Head(path, h).Add(MethodGet, path, h)], so a
    GET route also registers HEAD, first; the other methods register only
    themselves. *)
Definition fiber_register (method path : string) : list (string * string) :=
  if String.eqb method "GET" then [("HEAD", path); ("GET", path)] else [(method, path)].

(** [setupRoute(route)]: the (method, path) registrations it makes, in
    order, each with the handler [createProxyHandler(route)]. *)
Definition setupRoute (route : RouteCfg) : list (string * string) :=
  if String.eqb (r_Service route) "gateway" then [] else
  let pattern := if HasSuffix (r_Path route) "*" then r_Path route else r_Path route ++ "/*" in
  flat_map (fun method =>
              let m := ToUpper method in
              if existsb (String.eqb m) routed_methods
              then app (fiber_register m pattern) (fiber_register m (r_Path route)) else [])
           (r_Methods route).

(** [createProxyHandler(route)] applied to a request: the locals it stores
    ([route], [isPublic], [service]) and the [Forward] call. *)
Definition createProxyHandler (services : registry) (do_ : transport) (route : RouteCfg)
    (rq : ClientRequest) (resp_hdrs : header_list) (request_id : string)
    : (bool * string) * (option UpstreamRequest * Response) :=
  let stripPrefix := if r_StripPrefix route then r_Path route else "" in
  ((r_Public route, r_Service route),
   Forward services do_ rq resp_hdrs request_id (r_Service route) stripPrefix).

End Router.

(* ------------------------------------------------------------------ *)
(** ** Rate-limit keys and the Redis token bucket (ratelimit.go) *)
Module RateLimitKeys.
Import RateLimit.
Local Open Scope Z_scope.

(** [createKey]: [user_id] is the local stored by [Auth] (a string), or
    [None] when unset. *)
Definition createKey (user_id : option string) (ip path : string) : string :=
  match user_id with
  | Some u => "ratelimit:" ++ u ++ ":" ++ path
  | None => "ratelimit:ip:" ++ ip ++ ":" ++ path
  end.

(** The Lua script of [redisAllow] run on the fields [tokens] and [last]
    of the key ([None]: the key is absent, e.g. expired).  Every operand is
    an integer (the rate, the burst and [now.Unix()]), so the script's
    numbers are integers and its arithmetic is exact below 2^53.  The result
    is the new [(tokens, last)] written by [HMSET] and the reply
    [{allowed, math.floor(tokens), now + 1/rate}] converted to integers by
    truncation; the last element is not modelled ([None]) for [rate <= 0],
    where [1/rate] is infinite or negative. *)
Definition redisScript (data : option (Z * Z)) (rate burst now : Z)
    : (Z * Z) * (Z * Z * option Z) :=
  let tokens := match data with Some (t, _) => t | None => burst end in
  let last := match data with Some (_, l) => l | None => now end in
  let elapsed := now - last in
  let tokens := Z.min burst (tokens + elapsed * rate) in
  let reset := if Z.ltb 0 rate then Some (int_of_float (inject_Z now + / inject_Z rate)%Q) else None in
  if Z.leb 1 tokens then ((tokens - 1, now), (1, tokens - 1, reset))
  else ((tokens, now), (0, tokens, reset)).

(** [redisAllow]'s result when the script succeeds: [result[0] == 1],
    [int(result[1])], [result[2]]. *)
Definition redisAllow (data : option (Z * Z)) (rps burst now : Z) : (Z * Z) * (bool * Z * option Z) :=
  let '(st, (a, r, reset)) := redisScript data rps burst now in
  (st, (Z.eqb a 1, r, reset)).

(** Successive calls of [LocalLimiter.allow] on one key at the given
    instants: the final map, the number of allowed calls, and whether a
    call panicked (which ends the sequence). *)
Fixpoint allow_seq (st : buckets) (key : string) (rps burst : Z) (times : list Z)
    : buckets * Z * bool :=
  match times with
  | [] => (st, 0, false)
  | now :: rest =>
      let '(st', out) := allow st key rps burst now in
      match out with
      | None => (st', 0, true)
      | Some (allowed, _, _) =>
          let '(st'', n, p) := allow_seq st' key rps burst rest in
          (st'', (if allowed then 1 else 0) + n, p)
      end
  end.

End RateLimitKeys.

(* ------------------------------------------------------------------ *)
(** ** Role checks, tenant extraction, the auth middleware's public paths
    (auth.go) and request ids (logging.go) *)
Module AuthExtra.
Import Headers Proxy Auth.
Local Open Scope Z_scope.

Inductive GuardResult :=
| GNext
| GDenied (status : Z) (body : list (string * string)).

(** [RequireRoles(roles...)]: [user] is the [*Claims] local stored by
    [Auth] under its default context key. *)
Definition RequireRoles (roles : list string) (user : option Claims) : GuardResult :=
  match user with
  | None => GDenied 401 [("error", "unauthorized"); ("message", "No user context found")]
  | Some claims =>
      if existsb (fun requiredRole => existsb (fun userRole => EqualFold requiredRole userRole)
                                               (Roles claims)) roles
      then GNext
      else GDenied 403 [("error", "forbidden"); ("message", "Insufficient permissions")]
  end.

(** [strings.Split(s, sep)] for a one-byte separator. *)
Fixpoint Split (s : string) (sep : ascii) : list string :=
  match s with
  | EmptyString => [""]
  | String c s' =>
      match Split s' sep with
      | [] => [String c ""]
      | h :: t => if Ascii.eqb c sep then "" :: h :: t else String c h :: t
      end
  end.

(** [TenantExtractor]: [tid] is the [tenant_id] local (a string set by
    [Auth], [None] when unset), [hs] the request headers and [host]
    [c.Hostname()].  The result is the [tenant_id] local and the request
    headers afterwards. *)
Definition TenantExtractor (tid : option string) (hs : header_list) (host : string)
    : option string * header_list :=
  let tenantID := match tid with Some t => t | None => "" end in
  let tenantID := if String.eqb tenantID "" then c_Get "X-Tenant-ID" hs else tenantID in
  let tenantID :=
    if String.eqb tenantID "" then
      let parts := Split host "." in
      if Nat.leb 3 (length parts) then nth 0 parts "" else tenantID
    else tenantID in
  if negb (String.eqb tenantID "") then (Some tenantID, hdr_set "X-Tenant-ID" tenantID hs)
  else (tid, hs).

(** [NewAuthMiddleware]: the configuration handed to [Auth]. *)
Definition NewAuthConfig (secret : string) (routes : list Router.RouteCfg) : AuthConfig :=
  let d := DefaultAuthConfig secret in
  {| JWTSecret := JWTSecret d;
     PublicPaths := fold_left (fun m route =>
                                 if Router.r_Public route
                                 then <[Router.r_Path route := Router.r_Methods route]> m
                                 else m) routes (PublicPaths d);
     HeaderName := HeaderName d; TokenPrefix := TokenPrefix d;
     ContextKey := ContextKey d; SkipPrefixes := SkipPrefixes d |}.

(** [RequestID()]: [uuid] is [uuid.New().String()]; the result is the
    response headers and the [request_id] local. *)
Definition RequestID (uuid : string) (req_hdrs resp_hdrs : header_list) : header_list * string :=
  let requestID := c_Get "X-Request-ID" req_hdrs in
  let requestID := if String.eqb requestID "" then uuid else requestID in
  (hdr_set "X-Request-ID" requestID resp_hdrs, requestID).

End AuthExtra.

(* ------------------------------------------------------------------ *)
(** ** The retry middleware (internal/middleware/circuit.go) *)
Module Retry.
Local Open Scope Z_scope.

(** [time.Duration] and [int] arithmetic: signed 64-bit wrap-around. *)
Definition wrap64 (x : Z) : Z :=
  let m := Z.modulo x (2 ^ 64) in if Z.leb (2 ^ 63) m then m - 2 ^ 64 else m.

Record RetryMiddleware := {
  MaxRetries : Z;
  WaitTime : Z;
  MaxWaitTime : Z
}.

Definition NewRetryMiddleware (maxRetries waitTime : Z) : RetryMiddleware :=
  {| MaxRetries := maxRetries; WaitTime := waitTime; MaxWaitTime := 30 * RateLimit.Second |}.

(** The settings read from the [route] local: [route_retry] is [None] when
    the local is not a [config.Route] or its [Retry] is nil, otherwise
    [MaxAttempts] and the result of [time.ParseDuration(WaitTime)] ([None]
    when it fails). *)
Definition retry_settings (rm : RetryMiddleware) (route_retry : option (Z * option Z)) : Z * Z :=
  let '(maxAttempts, waitTime) :=
    match route_retry with
    | Some (ma, Some d) => (ma, d)
    | Some (ma, None) => (ma, 0)
    | None => (0, 0)
    end in
  let maxAttempts := if Z.eqb maxAttempts 0 then MaxRetries rm else maxAttempts in
  let waitTime := if Z.eqb waitTime 0 then WaitTime rm else waitTime in
  (maxAttempts, waitTime).

(** [sleepTime := waitTime * time.Duration(1<<attempt)], capped at
    [rm.MaxWaitTime]. *)
Definition sleepTime (rm : RetryMiddleware) (waitTime attempt : Z) : Z :=
  let st := wrap64 (waitTime * wrap64 (Z.shiftl 1 attempt)) in
  if Z.ltb (MaxWaitTime rm) st then MaxWaitTime rm else st.

(** The loop from [attempt] on, with [fuel] iterations left: [next i] is
    the status code of the response and the error of [c.Next()] at attempt
    [i].  The result is the error returned, the durations passed to
    [time.Sleep] in order, and the number of calls of [c.Next()]. *)
Fixpoint attempts (rm : RetryMiddleware) (maxAttempts waitTime : Z) (next : Z -> Z * option string)
    (fuel : nat) (attempt : Z) (lastErr : option string) : option string * list Z * nat :=
  match fuel with
  | O => (lastErr, [], O)
  | S fuel' =>
      let '(statusCode, err) := next attempt in
      if Z.ltb statusCode 500 then (err, [], 1%nat)
      else
        let sleeps := if Z.ltb attempt maxAttempts then [sleepTime rm waitTime attempt] else [] in
        let '(e, slept, calls) := attempts rm maxAttempts waitTime next fuel' (attempt + 1) err in
        (e, (sleeps ++ slept)%list, S calls)
  end.

(** [rm.Middleware()] on one request: [attempt] runs from 0 to
    [maxAttempts] (for [maxAttempts] below the largest [int]). *)
Definition Middleware (rm : RetryMiddleware) (route_retry : option (Z * option Z))
    (next : Z -> Z * option string) : option string * list Z * nat :=
  let '(maxAttempts, waitTime) := retry_settings rm route_retry in
  attempts rm maxAttempts waitTime next (Z.to_nat (maxAttempts + 1)) 0 None.

End Retry.

(* ================================================================== *)
(** * Proofs *)

Module HeaderFacts.
Import Headers Proxy.

(** The hop-by-hop names as listed in the specification (section 6). *)
Definition spec_hop_names : list string :=
  ["Connection"; "Keep-Alive"; "Proxy-Authenticate"; "Proxy-Authorization";
   "TE"; "Trailers"; "Transfer-Encoding"; "Upgrade"].

(** A header is hop-by-hop when its name equals one of them up to case. *)
Definition hop_by_hop (k : string) : bool := existsb (same_name k) spec_hop_names.

Ltac ascii_cases c := destruct c as [[] [] [] [] [] [] [] []]; reflexivity.

Lemma valid_lower (c : ascii) : validHeaderFieldByte (to_lower c) = validHeaderFieldByte c.
Proof. ascii_cases c. Qed.

Lemma upper_lower (c : ascii) : to_upper (to_lower c) = to_upper c.
Proof. ascii_cases c. Qed.

Lemma lower_lower (c : ascii) : to_lower (to_lower c) = to_lower c.
Proof. ascii_cases c. Qed.

Lemma all_valid_lower (s1 s2 : string) :
  lower_string s1 = lower_string s2 -> all_valid s1 = all_valid s2.
Proof.
  revert s2; induction s1 as [|c1 s1 IH]; intros [|c2 s2] H; simpl in H;
    try discriminate; [reflexivity|].
  injection H as Hc Hs. simpl.
  rewrite <- (valid_lower c1), <- (valid_lower c2), Hc, (IH s2 Hs). reflexivity.
Qed.

Lemma canon_loop_lower (b : bool) (s1 s2 : string) :
  lower_string s1 = lower_string s2 -> canon_loop b s1 = canon_loop b s2.
Proof.
  revert b s2; induction s1 as [|c1 s1 IH]; intros b [|c2 s2] H; simpl in H;
    try discriminate; [reflexivity|].
  injection H as Hc Hs. simpl.
  assert (E : (if b then to_upper c1 else to_lower c1) =
              (if b then to_upper c2 else to_lower c2)).
  { destruct b.
    - rewrite <- (upper_lower c1), <- (upper_lower c2), Hc. reflexivity.
    - exact Hc. }
  rewrite E, (IH _ s2 Hs). reflexivity.
Qed.

Lemma same_name_lower (a b : string) : same_name a b = true -> lower_string a = lower_string b.
Proof. unfold same_name. apply String.eqb_eq. Qed.

(** Every spelling of a specification hop-by-hop name is caught by
    [isHopByHopHeader]. *)
Lemma hop_by_hop_filtered (k : string) : hop_by_hop k = true -> isHopByHopHeader k = true.
Proof.
  unfold hop_by_hop. intros H. apply existsb_exists in H as [n [Hin Hn]].
  apply same_name_lower in Hn.
  assert (Hv : all_valid k = true).
  { rewrite (all_valid_lower _ _ Hn).
    simpl in Hin; repeat (destruct Hin as [<-|Hin]; [reflexivity|]); contradiction. }
  unfold isHopByHopHeader, CanonicalHeaderKey. rewrite Hv, (canon_loop_lower true _ _ Hn).
  simpl in Hin; repeat (destruct Hin as [<-|Hin]; [reflexivity|]); contradiction.
Qed.

Lemma in_hdr_set (k v : string) (hs : header_list) (kv : string * string) :
  In kv (hdr_set k v hs) -> In kv hs \/ kv = (k, v).
Proof.
  unfold hdr_set. rewrite in_app_iff. intros [H|[H|[]]].
  - left. apply filter_In in H. tauto.
  - right. symmetry. exact H.
Qed.

Lemma in_copy_headers (src dst : header_list) (kv : string * string) :
  In kv (copy_headers src dst) ->
  In kv dst \/ (In kv src /\ isHopByHopHeader (fst kv) = false).
Proof.
  revert dst; induction src as [|[k v] src IH]; intros dst H; simpl in H.
  - left. exact H.
  - destruct (IH _ H) as [Hd|[Hs Hh]].
    + destruct (isHopByHopHeader k) eqn:Ek.
      * left. exact Hd.
      * apply in_hdr_set in Hd as [Hd| ->].
        -- left. exact Hd.
        -- right. split; [left; reflexivity|exact Ek].
    + right. split; [right; exact Hs|exact Hh].
Qed.

Lemma copy_headers_no_new_hop (src dst : header_list) (k v : string) :
  In (k, v) (copy_headers src dst) -> hop_by_hop k = true -> In (k, v) dst.
Proof.
  intros H Hk. apply in_copy_headers in H as [H|[_ H]]; [exact H|].
  simpl in H. rewrite (hop_by_hop_filtered k Hk) in H. discriminate.
Qed.

Lemma same_name_sym (a b : string) : same_name a b = same_name b a.
Proof. unfold same_name. apply String.eqb_sym. Qed.

Lemma same_name_refl (a : string) : same_name a a = true.
Proof. unfold same_name. apply String.eqb_refl. Qed.

Lemma filter_app_str (f : string * string -> bool) (a b : header_list) :
  List.filter f (a ++ b)%list = (List.filter f a ++ List.filter f b)%list.
Proof.
  induction a as [|x a IH]; simpl; [reflexivity|].
  destruct (f x); rewrite IH; reflexivity.
Qed.

Lemma hdr_get_set_same (k v : string) (hs : header_list) : hdr_get k (hdr_set k v hs) = Some v.
Proof.
  unfold hdr_get, hdr_set. rewrite filter_app_str. simpl. rewrite same_name_refl.
  replace (List.filter (fun kv => same_name kv.1 k)
             (List.filter (fun kv => negb (same_name kv.1 k)) hs)) with (@nil (string * string));
    [reflexivity|].
  induction hs as [|[x y] hs IH]; simpl; [reflexivity|].
  destruct (same_name x k) eqn:E; simpl; [exact IH|rewrite E; exact IH].
Qed.

Lemma hdr_get_set_other (k k' v : string) (hs : header_list) :
  same_name k k' = false -> hdr_get k (hdr_set k' v hs) = hdr_get k hs.
Proof.
  intros Hkk. unfold hdr_get, hdr_set. rewrite filter_app_str. simpl.
  rewrite same_name_sym, Hkk, app_nil_r.
  replace (List.filter (fun kv => same_name kv.1 k)
             (List.filter (fun kv => negb (same_name kv.1 k')) hs))
    with (List.filter (fun kv => same_name kv.1 k) hs); [reflexivity|].
  induction hs as [|[x y] hs IH]; simpl; [reflexivity|].
  destruct (same_name x k') eqn:E'; destruct (same_name x k) eqn:E; simpl;
    rewrite ?E, ?IH; try reflexivity.
  apply same_name_lower in E, E'. unfold same_name in Hkk.
  rewrite <- E, E', String.eqb_refl in Hkk. discriminate.
Qed.

Lemma upstream_headers_no_hop (rq : ClientRequest) (rid k v : string) :
  In (k, v) (upstream_headers rq rid) -> hop_by_hop k = false.
Proof.
  unfold upstream_headers. intros H.
  repeat (apply in_hdr_set in H as [H|H]; [|injection H as -> _; reflexivity]).
  destruct (hop_by_hop k) eqn:Ek; [|reflexivity].
  apply (copy_headers_no_new_hop _ _ _ _ H) in Ek. destruct Ek.
Qed.

(** C1: no hop-by-hop header crosses the proxy: the upstream request has
    none at all, and every hop-by-hop header on the client response was
    already there before [Forward] copied the upstream response. *)
Theorem forward_hop_by_hop_isolation
    (services : registry) (do_ : transport) (rq : ClientRequest)
    (resp_hdrs : header_list) (rid serviceName stripPrefix : string) :
  let '(sent, resp) := Forward services do_ rq resp_hdrs rid serviceName stripPrefix in
  (forall ur, sent = Some ur -> forall k v, In (k, v) (up_headers ur) -> hop_by_hop k = false)
  /\ (forall k v, In (k, v) (rs_headers resp) -> hop_by_hop k = true -> In (k, v) resp_hdrs).
Proof.
  unfold Forward.
  assert (Hjson : forall code m k v, In (k, v) (rs_headers (json_response code resp_hdrs m)) ->
                  hop_by_hop k = true -> In (k, v) resp_hdrs).
  { intros code m k v H Hk. simpl in H. apply in_hdr_set in H as [H|H]; [exact H|].
    injection H as -> _. discriminate. }
  destruct (services !! serviceName) as [svc|].
  - destruct (Healthy svc); cbn -[json_response hdr_set copy_headers upstream_headers].
    + destruct (do_ svc _) as [err|resp]; split.
      * intros ur [= <-] k v. apply upstream_headers_no_hop.
      * intros k v. apply Hjson.
      * intros ur [= <-] k v. apply upstream_headers_no_hop.
      * intros k v H Hk. exact (copy_headers_no_new_hop _ _ _ _ H Hk).
    + split; [discriminate|intros k v; apply Hjson].
  - split; [discriminate|intros k v; apply Hjson].
Qed.

End HeaderFacts.

Module ProxyFacts.
Import Headers Proxy.

Definition query_suffix (query : string) : string :=
  if String.eqb query "" then "" else "?" ++ query.

Lemma append_empty (b : string) : "" ++ b = b.
Proof. reflexivity. Qed.

Lemma append_cons (x : ascii) (a b : string) : String x a ++ b = String x (a ++ b).
Proof. reflexivity. Qed.

Lemma HasPrefix_app (p r : string) : HasPrefix (p ++ r) p = true.
Proof.
  induction p as [|c p IH]; [reflexivity|].
  rewrite append_cons. simpl. rewrite Ascii.eqb_refl. exact IH.
Qed.

Lemma TrimPrefix_app (p r : string) : TrimPrefix (p ++ r) p = r.
Proof.
  induction p as [|c p IH]; [reflexivity|].
  rewrite append_cons. simpl. rewrite Ascii.eqb_refl, HasPrefix_app. exact IH.
Qed.

Lemma TrimPrefix_not_prefix (s p : string) : HasPrefix s p = false -> TrimPrefix s p = s.
Proof.
  destruct p as [|c p]; intros H; [reflexivity|].
  destruct s as [|d s]; [reflexivity|]. simpl in *.
  destruct (Ascii.eqb c d); simpl in H; [|reflexivity].
  rewrite H. reflexivity.
Qed.

Lemma append_assoc_str (a b c : string) : (a ++ b) ++ c = a ++ (b ++ c).
Proof.
  induction a as [|x a IH]; [reflexivity|].
  rewrite !append_cons, IH. reflexivity.
Qed.

Lemma append_nil_r (a : string) : a ++ "" = a.
Proof. induction a as [|x a IH]; [reflexivity|]. rewrite append_cons, IH. reflexivity. Qed.

Lemma target_url_shape (base path query strip : string) :
  target_url base path query strip = base ++ upstream_path path strip ++ query_suffix query.
Proof.
  unfold target_url, query_suffix; cbv zeta.
  destruct (String.eqb query ""); [rewrite append_nil_r; reflexivity|].
  apply append_assoc_str.
Qed.

(** C6: the upstream target of a forwarded request is the base URL, the
    path (prefix removed when stripping, the empty rest becoming "/") and
    the query string after a "?" when it is non-empty; the method is the
    client's. *)
Theorem forward_target_url
    (services : registry) (do_ : transport) (rq : ClientRequest)
    (resp_hdrs : header_list) (rid serviceName strip : string) (svc : ServiceClient)
    (Hsvc : services !! serviceName = Some svc) (Hup : Healthy svc = true) :
  exists ur, fst (Forward services do_ rq resp_hdrs rid serviceName strip) = Some ur
  /\ up_method ur = rq_method rq
  /\ (strip = "" -> up_uri ur = URL svc ++ rq_path rq ++ query_suffix (rq_query rq))
  /\ (forall rest, strip <> "" -> rq_path rq = strip ++ rest ->
        up_uri ur = URL svc ++ (if String.eqb rest "" then "/" else rest)
                             ++ query_suffix (rq_query rq))
  /\ (strip <> "" -> HasPrefix (rq_path rq) strip = false ->
        up_uri ur = URL svc ++ (if String.eqb (rq_path rq) "" then "/" else rq_path rq)
                             ++ query_suffix (rq_query rq)).
Proof.
  unfold Forward. rewrite Hsvc, Hup. cbn -[target_url upstream_headers].
  set (ur := {| up_uri := _ |}).
  assert (Hs : fst (match do_ svc ur with
                    | inl err => (Some ur, json_response StatusBadGateway resp_hdrs
                                     [("error", "upstream request failed"); ("details", err)])
                    | inr resp => (Some ur, {| rs_status := ur_status resp;
                                               rs_headers := copy_headers (ur_headers resp) resp_hdrs;
                                               rs_body := RawBody (ur_body resp) |})
                    end) = Some ur) by (destruct (do_ svc ur); reflexivity).
  exists ur. split; [exact Hs|]. split; [reflexivity|].
  subst ur; simpl; rewrite target_url_shape; unfold upstream_path.
  split; [|split].
  - intros ->. reflexivity.
  - intros rest Hne ->. apply String.eqb_neq in Hne. rewrite Hne, TrimPrefix_app. reflexivity.
  - intros Hne Hp. apply String.eqb_neq in Hne. rewrite Hne, TrimPrefix_not_prefix by exact Hp.
    reflexivity.
Qed.

(** The S5 scenario: an auth service and the request [GET /api/v1/auth/me?x=1]. *)
Definition auth_svc : ServiceClient :=
  {| Name := "auth"; URL := "http://auth:8081"; HealthPath := "/health"; Healthy := true |}.

Definition s5_services : registry := <["auth" := auth_svc]> (∅ : registry).

Definition s5_request : ClientRequest :=
  {| rq_method := "GET"; rq_path := "/api/v1/auth/me"; rq_query := "x=1";
     rq_headers := [("Host", "gw")]; rq_body := ""; rq_host := "gw";
     rq_ip := "10.0.0.7"; rq_protocol := "http" |}.

Definition ok_transport : transport :=
  fun _ _ => inr {| ur_status := 200; ur_headers := []; ur_body := "{}" |}.

Lemma forward_target_url_witness :
  s5_services !! "auth" = Some auth_svc /\ Healthy auth_svc = true /\
  exists ur, fst (Forward s5_services ok_transport s5_request [] "" "auth" "/api/v1/auth") = Some ur
  /\ up_method ur = "GET" /\ up_uri ur = "http://auth:8081/me?x=1".
Proof.
  split; [reflexivity|]. split; [reflexivity|].
  destruct (forward_target_url s5_services ok_transport s5_request [] "" "auth" "/api/v1/auth"
              auth_svc eq_refl eq_refl) as [ur [H1 [H2 [_ [H3 _]]]]].
  exists ur. split; [exact H1|]. split; [exact H2|].
  rewrite (H3 "/me"); [reflexivity|discriminate|reflexivity].
Defined.

(** C7: the status codes of [Forward]: 502 for an unknown service, 503 for
    an unhealthy one (nothing sent upstream in both cases), 502 with an
    [error]/[details] JSON body on a transport error, and otherwise the
    upstream status and body. *)
Theorem forward_status_codes
    (services : registry) (do_ : transport) (rq : ClientRequest)
    (resp_hdrs : header_list) (rid serviceName strip : string) :
  let F := Forward services do_ rq resp_hdrs rid serviceName strip in
  (services !! serviceName = None -> fst F = None /\ rs_status (snd F) = 502%Z)
  /\ (forall svc, services !! serviceName = Some svc -> Healthy svc = false ->
        fst F = None /\ rs_status (snd F) = 503%Z)
  /\ (forall svc ur err, services !! serviceName = Some svc -> Healthy svc = true ->
        fst F = Some ur -> do_ svc ur = inl err ->
        rs_status (snd F) = 502%Z
        /\ rs_body (snd F) = JSONBody [("error", "upstream request failed"); ("details", err)])
  /\ (forall svc ur u, services !! serviceName = Some svc -> Healthy svc = true ->
        fst F = Some ur -> do_ svc ur = inr u ->
        rs_status (snd F) = ur_status u /\ rs_body (snd F) = RawBody (ur_body u)).
Proof.
  intros F. subst F. unfold Forward. split; [|split; [|split]].
  - intros ->. split; reflexivity.
  - intros svc -> ->. split; reflexivity.
  - intros svc ur err -> -> Hs Hd. cbn -[target_url upstream_headers json_response] in *.
    destruct (do_ svc _) eqn:E; simpl in Hs; injection Hs as <-; rewrite E in Hd;
      [injection Hd as ->; split; reflexivity|discriminate].
  - intros svc ur u -> -> Hs Hd. cbn -[target_url upstream_headers json_response] in *.
    destruct (do_ svc _) eqn:E; simpl in Hs; injection Hs as <-; rewrite E in Hd;
      [discriminate|injection Hd as ->; split; reflexivity].
Qed.

Lemma forward_status_codes_witness :
  rs_status (snd (Forward (∅ : registry) ok_transport s5_request [] "" "auth" "")) = 502%Z
  /\ rs_status (snd (Forward s5_services ok_transport s5_request [] "" "auth" "")) = 200%Z.
Proof.
  destruct (forward_status_codes ∅ ok_transport s5_request [] "" "auth" "") as [H1 _].
  destruct (forward_status_codes s5_services ok_transport s5_request [] "" "auth" "")
    as [_ [_ [_ H4]]].
  split.
  - apply H1. reflexivity.
  - set (ur := match fst (Forward s5_services ok_transport s5_request [] "" "auth" "") with
                 | Some u => u
                 | None => {| up_uri := ""; up_method := ""; up_headers := []; up_body := "" |}
                 end).
    apply (H4 auth_svc ur {| ur_status := 200; ur_headers := []; ur_body := "{}" |});
      reflexivity.
Defined.

End ProxyFacts.

Module RateLimitFacts.
Import Headers RateLimit.

(** Bucket bounds with [burst] and clock readings up to [T]. *)
Definition lim_inv (burst T : Z) (st : buckets) : Prop :=
  forall k b, st !! k = Some b ->
    (0 <= tokens b <= inject_Z burst)%Q /\ (lastCheck b <= T)%Z.

Lemma lim_inv_empty (burst T : Z) : lim_inv burst T ∅.
Proof. intros k b H. rewrite lookup_empty in H. discriminate. Qed.

Lemma inject_Z_le (x y : Z) : (x <= y)%Z -> (inject_Z x <= inject_Z y)%Q.
Proof. rewrite Zle_Qle. exact id. Qed.

Lemma Seconds_nonneg (d : Z) : (0 <= d)%Z -> (0 <= Seconds d)%Q.
Proof.
  intros Hd. unfold Seconds, Qdiv. apply Qmult_le_0_compat.
  - apply (inject_Z_le 0 d Hd).
  - apply Qinv_le_0_compat. apply (inject_Z_le 0 Second). unfold Second. lia.
Qed.

(** The token count the refill of [allow] computes for bucket [b] at [now]. *)
Definition refill (b : rateBucket) (rps burst now : Z) : Q :=
  qmin (inject_Z burst) (tokens b + Seconds (now - lastCheck b) * inject_Z rps)%Q.

Lemma refill_bounds (b : rateBucket) (rps burst now : Z) :
  (0 <= rps)%Z -> (1 <= burst)%Z -> (lastCheck b <= now)%Z ->
  (0 <= tokens b)%Q -> (0 <= refill b rps burst now <= inject_Z burst)%Q.
Proof.
  intros Hr Hb Hl Ht. unfold refill, qmin.
  assert (Hy : (0 <= Seconds (now - lastCheck b) * inject_Z rps)%Q).
  { apply Qmult_le_0_compat; [apply Seconds_nonneg; lia|apply (inject_Z_le 0 rps Hr)]. }
  assert (HB : (1 <= inject_Z burst)%Q) by apply (inject_Z_le 1 burst Hb).
  destruct (Qlt_le_dec _ _); lra.
Qed.

Lemma allow_keeps_bounds (st : buckets) (key : string) (rps burst T now : Z) :
  (0 <= rps)%Z -> (1 <= burst)%Z -> (T <= now)%Z -> lim_inv burst T st ->
  lim_inv burst now (fst (allow st key rps burst now)).
Proof.
  intros Hr Hb HT Hinv k b'. unfold allow.
  assert (HB : (1 <= inject_Z burst)%Q) by apply (inject_Z_le 1 burst Hb).
  assert (Hother : key <> k -> st !! k = Some b' ->
            ((0 <= tokens b' <= inject_Z burst)%Q /\ (lastCheck b' <= now)%Z)).
  { intros _ Hk. destruct (Hinv k b' Hk). split; [assumption|lia]. }
  destruct (st !! key) as [b|] eqn:E.
  - destruct (Hinv key b E) as [[H0 _] Hl].
    pose proof (refill_bounds b rps burst now Hr Hb ltac:(lia) H0) as Hf.
    unfold refill in Hf.
    destruct (Qle_bool 1 _) eqn:Ea; simpl; rewrite lookup_insert_Some;
      (intros [[-> <-]|[Hne Hk]]; [simpl|exact (Hother Hne Hk)]).
    + apply Qle_bool_iff in Ea. split; [lra|lia].
    + split; [lra|lia].
  - simpl. rewrite lookup_insert_Some.
    intros [[-> <-]|[Hne Hk]]; [simpl|exact (Hother Hne Hk)].
    split; [split; apply inject_Z_le; lia|lia].
Qed.

Lemma cleanup_keeps_bounds (st : buckets) (burst T interval now : Z) :
  (T <= now)%Z -> lim_inv burst T st -> lim_inv burst now (cleanup st interval now).
Proof.
  intros HT Hinv k b H. unfold cleanup in H. apply map_lookup_filter_Some in H as [H _].
  destruct (Hinv k b H). split; [assumption|lia].
Qed.

Lemma run_keeps_bounds (ops : list op) (st : buckets) (rps burst T : Z) :
  (0 <= rps)%Z -> (1 <= burst)%Z -> monotone_from T ops -> lim_inv burst T st ->
  lim_inv burst (last_time T ops) (run rps burst st ops).
Proof.
  intros Hr Hb. revert st T; induction ops as [|o ops IH]; intros st T Hm Hinv; [exact Hinv|].
  destruct Hm as [Ho Hm]. simpl. apply IH; [exact Hm|].
  destruct o as [key now|interval now]; simpl in *.
  - apply allow_keeps_bounds with T; assumption.
  - apply cleanup_keeps_bounds with T; assumption.
Qed.

End RateLimitFacts.

Module LimiterClaims.
Import Headers HeaderFacts RateLimit RateLimitFacts.

Lemma Qfloor_zero (t : Q) : (0 <= t)%Q -> (t < 1)%Q -> Qfloor t = 0%Z.
Proof.
  intros H0 H1. pose proof (Qfloor_le t) as Hl. pose proof (Qfloor_resp_le 0 t H0) as Hm.
  change (Qfloor 0) with 0%Z in Hm.
  assert (Hu : (inject_Z (Qfloor t) < inject_Z 1)%Q) by (change (inject_Z 1) with 1%Q; lra).
  rewrite <- Zlt_Qlt in Hu. lia.
Qed.

Lemma int_of_float_nonneg (t : Q) : (0 <= t)%Q -> int_of_float t = Qfloor t.
Proof. intros H. unfold int_of_float. apply Qle_bool_iff in H. rewrite H. reflexivity. Qed.

(** Under bounded buckets and [rps >= 1] the local [allow] returns, and
    reports [floor] of the stored count and the reset second of the code. *)
Lemma allow_result (st : buckets) (key : string) (rps burst T now : Z) :
  (1 <= rps)%Z -> (1 <= burst)%Z -> (T <= now)%Z -> lim_inv burst T st ->
  exists (allowed : bool) (b : rateBucket),
    snd (allow st key rps burst now)
      = Some (allowed, Qfloor (tokens b), Unix (now + (if allowed then Second else Z.quot Second rps))%Z)
    /\ fst (allow st key rps burst now) !! key = Some b.
Proof.
  intros Hr Hb HT Hinv. unfold allow.
  destruct (st !! key) as [b|] eqn:E.
  - destruct (Hinv key b E) as [[H0 _] Hl].
    pose proof (refill_bounds b rps burst now ltac:(lia) Hb ltac:(lia) H0) as Hf.
    unfold refill in Hf.
    destruct (Qle_bool 1 _) eqn:Ea; simpl.
    + apply Qle_bool_iff in Ea. eexists true, _. split; [|apply lookup_insert_eq]. simpl.
      rewrite int_of_float_nonneg by lra. reflexivity.
    + assert (Hlt : (qmin (inject_Z burst) (tokens b + Seconds (now - lastCheck b) * inject_Z rps) < 1)%Q).
      { apply Qnot_le_lt. intros Hc. apply Qle_bool_iff in Hc. congruence. }
      eexists false, _. split; [|apply lookup_insert_eq]. simpl.
      replace (Z.eqb rps 0) with false by lia.
      rewrite Qfloor_zero by lra. reflexivity.
  - exists true, {| tokens := inject_Z (burst - 1); lastCheck := now |}.
    split; [|apply lookup_insert_eq]. cbn -[Qfloor inject_Z]. rewrite Qfloor_Z. reflexivity.
Qed.

(** C3 (failing input): with [burst = 0] the first call on a key stores
    the token count [-1], outside [[0, burst]]. *)
Theorem local_allow_burst_zero_negative_tokens :
  fst (allow ∅ "ratelimit:ip:10.0.0.7:/api/v1/users" 10 0 0)
      !! "ratelimit:ip:10.0.0.7:/api/v1/users"
    = Some {| tokens := inject_Z (-1); lastCheck := 0 |}
  /\ snd (allow ∅ "ratelimit:ip:10.0.0.7:/api/v1/users" 10 0 0) = Some (true, (-1)%Z, 1%Z)
  /\ (inject_Z (-1) < 0)%Q.
Proof. split; [reflexivity|split; [reflexivity|reflexivity]]. Qed.

Definition cfg_2_2 : RateLimitConfig := {| Enabled := true; RequestsPerSec := 2; BurstSize := 2 |}.

(** C4 (failing input): rps = burst = 2, a first request at t = 0.  The
    allowed response reports X-RateLimit-Reset = 1 ([now + 1 s], whatever
    rps is), although the bucket has gained one more token by 0.5 s, in
    second 0: the second the denial branch's formula [now + 1 s / rps]
    gives, and the reset the Redis path replies for the same call. *)
Theorem ratelimit_reset_ignores_rps :
  let '(st', res) := Middleware cfg_2_2 None "k" 0 0 ∅ [] in
  exists (r : MwResult) (b : rateBucket), res = Some r /\ st' !! "k" = Some b
    /\ mw_allowed r = true
    /\ hdr_get "X-RateLimit-Reset" (mw_headers r) = Some "1"
    /\ (tokens b + 1 <= refill b 2 2 (Z.quot Second 2))%Q
    /\ Unix (0 + Z.quot Second 2) = 0%Z
    /\ snd (snd (RateLimitKeys.redisAllow None 2 2 0)) = Some 0%Z.
Proof.
  destruct (Middleware cfg_2_2 None "k" 0 0 ∅ []) as [st' res] eqn:E.
  vm_compute in E. injection E as <- <-.
  eexists _, _. split; [reflexivity|]. split; [reflexivity|]. split; [reflexivity|].
  split; [reflexivity|]. split; [vm_compute; discriminate|].
  split; reflexivity.
Qed.

(** C9 (amended): [allow] panics exactly when [rps = 0] and the call takes
    the denial branch (an existing bucket whose refilled count is below
    one); for any other [rps], in particular every [rps >= 1], it returns. *)
Theorem local_allow_panics_iff (st : buckets) (key : string) (rps burst now : Z) :
  (snd (allow st key rps burst now) = None
     <-> rps = 0%Z /\ exists b, st !! key = Some b /\ (refill b rps burst now < 1)%Q)
  /\ (rps <> 0%Z -> snd (allow st key rps burst now) <> None)
  /\ ((1 <= rps)%Z -> snd (allow st key rps burst now) <> None).
Proof.
  assert (Hiff : snd (allow st key rps burst now) = None
           <-> rps = 0%Z /\ exists b, st !! key = Some b /\ (refill b rps burst now < 1)%Q).
  { unfold allow. destruct (st !! key) as [b|] eqn:E.
    - fold (refill b rps burst now). destruct (Qle_bool 1 (refill b rps burst now)) eqn:Ea; simpl.
      + split; [discriminate|]. intros [_ [b' [Hb' Hlt]]]. injection Hb' as <-.
        apply Qle_bool_iff in Ea. lra.
      + split.
        * destruct (Z.eqb rps 0) eqn:Er; [|discriminate]. intros _. split; [lia|].
          exists b. split; [reflexivity|]. apply Qnot_le_lt. intros Hc.
          apply Qle_bool_iff in Hc. congruence.
        * intros [-> _]. reflexivity.
    - simpl. split; [discriminate|]. intros [_ [b' [Hb' _]]]. discriminate. }
  split; [exact Hiff|]. split.
  - intros Hr H. apply Hiff in H. tauto.
  - intros Hr H. apply Hiff in H. lia.
Qed.

(** C9 (counterexample): [rps = -1] is below one, yet the denial branch,
    the only place [allow] can panic, returns a result there: the division
    [time.Second / time.Duration(-1)] is defined. *)
Lemma local_allow_negative_rps_total :
  (-1 < 1)%Z
  /\ snd (allow (<["k" := {| tokens := 0; lastCheck := 0 |}]> ∅) "k" (-1) 1 0)
       = Some (false, 0%Z, (-1)%Z)
  /\ (forall (st : buckets) key burst now, snd (allow st key (-1) burst now) <> None).
Proof.
  split; [lia|]. split; [reflexivity|].
  intros st key burst now. unfold allow. destruct (st !! key); [|discriminate].
  destruct (Qle_bool _ _); discriminate.
Qed.

(** C10: the first call for a key not in the map is allowed whatever
    [burst] and [rps] are; it stores [burst - 1] tokens and reports
    [burst - 1] remaining; for [burst = 0] the stored count is negative. *)
Theorem local_allow_first_call (st : buckets) (key : string) (rps burst now : Z)
    (Hnew : st !! key = None) :
  fst (allow st key rps burst now) !! key
    = Some {| tokens := inject_Z (burst - 1); lastCheck := now |}
  /\ snd (allow st key rps burst now) = Some (true, (burst - 1)%Z, Unix (now + Second))
  /\ (burst = 0%Z -> exists b, fst (allow st key rps burst now) !! key = Some b /\ (tokens b < 0)%Q).
Proof.
  unfold allow. rewrite Hnew. simpl. split; [apply lookup_insert_eq|]. split; [reflexivity|].
  intros ->. eexists. split; [apply lookup_insert_eq|]. reflexivity.
Qed.

Lemma local_allow_first_call_witness :
  (∅ : buckets) !! "ratelimit:ip:10.0.0.7:/x" = None
  /\ fst (allow ∅ "ratelimit:ip:10.0.0.7:/x" 0 0 0) !! "ratelimit:ip:10.0.0.7:/x"
       = Some {| tokens := inject_Z (0 - 1); lastCheck := 0 |}.
Proof.
  split; [reflexivity|].
  apply (local_allow_first_call ∅ "ratelimit:ip:10.0.0.7:/x" 0 0 0 (lookup_empty _)).
Defined.

End LimiterClaims.

Module BreakerClaims.
Import Breaker.
Local Open Scope Z_scope.

Definition call (cb : CircuitBreaker) (now : Z) (success : bool) : CircuitBreaker :=
  fst (Execute cb now now success).

Definition cfg_trip2 : CircuitConfig :=
  {| cc_Enabled := true; cc_MaxRequests := 5; cc_Interval := 0;
     cc_Timeout := 30000000000; FailureThreshold := 2 |}.

(** C2 (counterexample): threshold 2, a failure then a success: the
    second observation has two requests and half of them failed, yet the
    breaker is still Closed; it only opens at the next failure. *)
Lemma breaker_no_trip_on_success_counterexample :
  let cb1 := call (NewCircuitBreaker cfg_trip2 0) 0 false in
  let cb2 := call cb1 0 true in
  let cb3 := call cb2 0 false in
  state cb1 = StateClosed
  /\ Requests (counts cb2) = 2 /\ TotalFailures (counts cb2) = 1
  /\ ReadyToTrip cfg_trip2 (counts cb2) = true
  /\ state cb2 = StateClosed
  /\ state cb3 = StateOpen.
Proof. repeat split; reflexivity. Qed.

Lemma currentState_closed_stable (cb : CircuitBreaker) (now : Z) :
  0 <= interval cb -> state (currentState cb now) = StateClosed ->
  currentState (currentState cb now) now = currentState cb now.
Proof.
  intros Hi Hc. unfold currentState in Hc |- *.
  destruct (state cb) eqn:Es.
  - destruct (expiry cb) as [t|] eqn:Ee; [|rewrite Es, Ee; reflexivity].
    destruct (Z.ltb t now) eqn:Et.
    + unfold toNewGeneration. rewrite Es. simpl.
      destruct (Z.eqb (interval cb) 0) eqn:Ez; [reflexivity|].
      replace (Z.ltb (now + interval cb) now) with false by lia. reflexivity.
    + rewrite Es, Ee, Et. reflexivity.
  - simpl in Hc. rewrite Es in Hc. discriminate.
  - destruct (expired (expiry cb) now); [|rewrite Es in Hc; discriminate].
    unfold setState in Hc. rewrite Es in Hc. simpl in Hc. discriminate.
Qed.

Lemma currentState_with_counts (cb : CircuitBreaker) (c : Counts) (now : Z) :
  currentState cb now = cb -> state cb = StateClosed ->
  currentState (with_counts cb c) now = with_counts cb c.
Proof.
  intros H Hc. unfold currentState in H |- *. simpl. rewrite Hc in H |- *.
  destruct (expiry cb) as [t|]; [|reflexivity].
  destruct (Z.ltb t now); [|reflexivity].
  apply (f_equal generation) in H. simpl in H. lia.
Qed.

Lemma readyToTrip_currentState (cb : CircuitBreaker) (now : Z) :
  readyToTrip (currentState cb now) = readyToTrip cb.
Proof.
  unfold currentState. destruct (state cb) eqn:Es; [| reflexivity |].
  - destruct (expiry cb); [destruct (Z.ltb _ _)|]; reflexivity.
  - destruct (expired _ _); [|reflexivity].
    unfold setState. rewrite Es. reflexivity.
Qed.

Lemma Execute_closed (cb : CircuitBreaker) (now now' : Z) (success : bool) :
  state (currentState cb now) = StateClosed ->
  Execute cb now now' success
  = (afterRequest (with_counts (currentState cb now) (onRequest (counts (currentState cb now))))
       (generation (currentState cb now)) success now', None).
Proof.
  intros Hc. unfold Execute, beforeRequest. cbv zeta.
  destruct (currentState cb now) as [a b c d e f g h]. simpl in *. subst e. reflexivity.
Qed.

(** C2 (amended): a call observed while the breaker is Closed opens it
    exactly when the call failed and the counts of the current interval,
    this request and this failure included, satisfy
    [requests >= N /\ failures / requests >= 0.5]; otherwise it stays
    Closed.  A success never trips the breaker. *)
Theorem breaker_trips_exactly_on_failure
    (cfg : CircuitConfig) (cb : CircuitBreaker) (now : Z) (success : bool)
    (Hr : readyToTrip cb = ReadyToTrip cfg) (Hi : 0 <= interval cb)
    (Hc : state (currentState cb now) = StateClosed) :
  let c' := onFailureCounts (onRequest (counts (currentState cb now))) in
  (state (call cb now success) = StateOpen
     <-> success = false /\ FailureThreshold cfg <= Requests c'
         /\ failureRatioAtLeastHalf c' = true)
  /\ (state (call cb now success) <> StateOpen -> state (call cb now success) = StateClosed).
Proof.
  intros c'. unfold call.
  rewrite (Execute_closed cb now now success Hc).
  set (cb1 := currentState cb now) in *.
  assert (Hs : currentState cb1 now = cb1) by (apply currentState_closed_stable; assumption).
  assert (Hr1 : readyToTrip cb1 = ReadyToTrip cfg) by (subst cb1; rewrite readyToTrip_currentState; exact Hr).
  clearbody cb1.
  unfold afterRequest. rewrite (currentState_with_counts cb1 _ now Hs Hc).
  simpl. rewrite Z.eqb_refl. simpl.
  destruct success; unfold onSuccess, onFailure; simpl; rewrite Hc.
  - simpl. rewrite Hc. split; [split; [discriminate|intros [H _]; discriminate]|intros _; reflexivity].
  - simpl. rewrite Hr1. unfold ReadyToTrip. fold c'.
    destruct (Z.leb (FailureThreshold cfg) (Requests c') && failureRatioAtLeastHalf c') eqn:E.
    + apply andb_true_iff in E as [E1 E2]. apply Z.leb_le in E1.
      unfold setState. simpl. rewrite Hc. simpl.
      split; [split; [intros _; auto|intros _; reflexivity]|intros H; contradiction H; reflexivity].
    + simpl. rewrite Hc. split; [|intros _; reflexivity].
      split; [discriminate|]. intros [_ [E1 E2]]. unfold c' in *. simpl in *.
      apply andb_false_iff in E as [E|E]; [apply Z.leb_gt in E; lia|congruence].
Qed.

Lemma breaker_trips_exactly_on_failure_witness :
  readyToTrip (NewCircuitBreaker cfg_trip2 0) = ReadyToTrip cfg_trip2
  /\ 0 <= interval (NewCircuitBreaker cfg_trip2 0)
  /\ state (currentState (NewCircuitBreaker cfg_trip2 0) 0) = StateClosed
  /\ (state (call (NewCircuitBreaker cfg_trip2 0) 0 false) = StateOpen
      <-> false = false
          /\ FailureThreshold cfg_trip2
               <= Requests (onFailureCounts (onRequest (counts (currentState (NewCircuitBreaker cfg_trip2 0) 0))))
          /\ failureRatioAtLeastHalf
               (onFailureCounts (onRequest (counts (currentState (NewCircuitBreaker cfg_trip2 0) 0)))) = true).
Proof.
  split; [reflexivity|]. split; [simpl; lia|]. split; [reflexivity|].
  exact (proj1 (breaker_trips_exactly_on_failure cfg_trip2 (NewCircuitBreaker cfg_trip2 0) 0 false
                  eq_refl ltac:(simpl; lia) eq_refl)).
Defined.

Lemma Execute_err (cb : CircuitBreaker) (now now' : Z) (success : bool) :
  snd (Execute cb now now' success)
  = match state (currentState cb now) with
    | StateOpen => Some ErrOpenState
    | StateHalfOpen =>
        if Z.leb (maxRequests (currentState cb now)) (Requests (counts (currentState cb now)))
        then Some ErrTooManyRequests else None
    | StateClosed => None
    end.
Proof.
  unfold Execute, beforeRequest. cbv zeta.
  destruct (currentState cb now) as [a b c d e f g h]. simpl.
  destruct e; [reflexivity| |reflexivity]. destruct (Z.leb a (Requests g)); reflexivity.
Qed.

Lemma Middleware_wrapped (cfg : CircuitConfig) (m : breakers) (s : string) (route : option Route)
    (now now' next_status : Z) (next_ok : bool) :
  cc_Enabled cfg = true ->
  (String.eqb s "" || String.eqb s "gateway") = false ->
  match route with Some r => negb (route_CircuitBreaker r) | None => false end = false ->
  snd (Middleware cfg m (Some s) route now now' next_status next_ok)
  = match snd (Execute (snd (GetBreaker cfg m s now)) now now' (Z.ltb next_status 500 && next_ok)) with
    | Some ErrOpenState =>
        CbRejected 503 [("error", "service_unavailable");
                        ("message", "Service temporarily unavailable, please try again later");
                        ("service", s)]
    | Some ErrTooManyRequests =>
        CbRejected 503 [("error", "too_many_requests");
                        ("message", "Service is recovering, please try again");
                        ("service", s)]
    | None => CbRan
    end.
Proof.
  intros He Hs Hk. unfold Middleware. rewrite He. cbn [negb]. rewrite Hs, Hk.
  destruct (GetBreaker cfg m s now) as [m1 cb]. cbn [snd].
  destruct (Execute cb now now' _) as [cb' err]. reflexivity.
Qed.

(** C5 (counterexample): with breaking enabled and service "auth" but no
    route stored on the context, the call is run inside the breaker. *)
Lemma circuit_middleware_no_route_counterexample :
  cc_Enabled cfg_trip2 = true
  /\ snd (Middleware cfg_trip2 empty (Some "auth") None 0 0 200 true) = CbRan.
Proof. split; reflexivity. Qed.

(** C5 (amended): the middleware runs the downstream call inside the
    service's breaker exactly when breaking is enabled, the service name is
    set, non-empty and not "gateway", and either no route is stored on the
    context or the stored route has circuit_breaker = true.  A wrapped call
    is answered 503 with error service_unavailable when the breaker is
    Open, 503 with error too_many_requests when it is HalfOpen with
    max_requests requests already admitted, and is run otherwise. *)
Theorem circuit_middleware_scope
    (cfg : CircuitConfig) (m : breakers) (service : option string) (route : option Route)
    (now now' next_status : Z) (next_ok : bool) :
  let res := snd (Middleware cfg m service route now now' next_status next_ok) in
  (res <> CbNext
   <-> cc_Enabled cfg = true
       /\ exists s, service = Some s /\ s <> "" /\ s <> "gateway"
          /\ (route = None \/ exists r, route = Some r /\ route_CircuitBreaker r = true))
  /\ forall s, service = Some s -> res <> CbNext ->
     let cb := currentState (snd (GetBreaker cfg m s now)) now in
     (state cb = StateOpen ->
        exists rest, res = CbRejected 503 (("error", "service_unavailable") :: rest))
     /\ (state cb = StateHalfOpen -> maxRequests cb <= Requests (counts cb) ->
        exists rest, res = CbRejected 503 (("error", "too_many_requests") :: rest))
     /\ (state cb = StateClosed
         \/ (state cb = StateHalfOpen /\ Requests (counts cb) < maxRequests cb) ->
        res = CbRan).
Proof.
  cbv zeta.
  destruct (cc_Enabled cfg) eqn:En.
  2:{ unfold Middleware. rewrite En. cbn.
      split; [split; [intros H; now contradiction H|intros [H _]; discriminate]|].
      intros s _ H; now contradiction H. }
  destruct service as [s|].
  2:{ unfold Middleware. rewrite En. cbn.
      split; [split; [intros H; now contradiction H|intros [_ [s [H _]]]; discriminate]|].
      intros s _ H; now contradiction H. }
  destruct (String.eqb s "" || String.eqb s "gateway") eqn:Eg.
  { assert (Hm : snd (Middleware cfg m (Some s) route now now' next_status next_ok) = CbNext)
      by (unfold Middleware; rewrite En; cbn [negb]; rewrite Eg; reflexivity).
    rewrite Hm.
    split; [split; [intros H; now contradiction H|]|intros s' _ H; now contradiction H].
    intros [_ [s' [Hs' [H1 [H2 _]]]]]. injection Hs' as <-.
    apply orb_true_iff in Eg as [E|E]; apply String.eqb_eq in E; contradiction. }
  apply orb_false_iff in Eg as [Eg1 Eg2].
  apply String.eqb_neq in Eg1, Eg2.
  destruct (match route with Some r => negb (route_CircuitBreaker r) | None => false end)
    eqn:Ek.
  { assert (Hm : snd (Middleware cfg m (Some s) route now now' next_status next_ok) = CbNext)
      by (unfold Middleware; rewrite En; cbn [negb];
          rewrite (proj2 (orb_false_iff _ _) (conj (proj2 (String.eqb_neq _ _) Eg1)
                                                   (proj2 (String.eqb_neq _ _) Eg2)));
          rewrite Ek; reflexivity).
    rewrite Hm.
    split; [split; [intros H; now contradiction H|]|intros s' _ H; now contradiction H].
    intros [_ [s' [_ [_ [_ [Hr|[r [Hr Hc]]]]]]]]; subst route; [discriminate|].
    rewrite Hc in Ek. discriminate. }
  rewrite (Middleware_wrapped cfg m s route now now' next_status next_ok En
             (proj2 (orb_false_iff _ _) (conj (proj2 (String.eqb_neq _ _) Eg1)
                                              (proj2 (String.eqb_neq _ _) Eg2))) Ek).
  rewrite Execute_err.
  set (cb := currentState (snd (GetBreaker cfg m s now)) now).
  split.
  - split.
    + intros _. split; [reflexivity|]. exists s. repeat split; try assumption.
      destruct route as [r|]; [right; exists r; split; [reflexivity|]|left; reflexivity].
      destruct (route_CircuitBreaker r); [reflexivity|discriminate].
    + intros _. destruct (state cb); [discriminate|destruct (Z.leb _ _)|]; discriminate.
  - intros s' Hs' _. injection Hs' as <-. fold cb.
    split; [|split].
    + intros Ho. rewrite Ho. eexists. reflexivity.
    + intros Ho Hle. rewrite Ho. apply Z.leb_le in Hle. rewrite Hle. eexists. reflexivity.
    + intros [Ho|[Ho Hlt]]; rewrite Ho; [reflexivity|].
      apply Z.leb_gt in Hlt. rewrite Hlt. reflexivity.
Qed.

End BreakerClaims.

Module AuthClaims.
Import Headers Proxy ProxyFacts Auth.
Local Open Scope Z_scope.

Lemma string_length_app (a b : string) : String.length (a ++ b) = (String.length a + String.length b)%nat.
Proof. induction a as [|x a IH]; [reflexivity|]. rewrite append_cons. simpl. rewrite IH. reflexivity. Qed.

Lemma app_nonempty_neq (p r : string) : p <> "" -> r <> p ++ r.
Proof.
  intros Hp H. apply (f_equal String.length) in H. rewrite string_length_app in H.
  destruct p; [contradiction|]. simpl in H. lia.
Qed.

Lemma Validate_iff (c : Claims) (now : Z) :
  Validate c now = true
  <-> (forall e, ExpiresAt c = Some e -> now < instant e)
      /\ (forall n, NotBefore c = Some n -> instant n <= now).
Proof.
  unfold Validate. rewrite andb_true_iff.
  assert (He : (match ExpiresAt c with Some e => Z.ltb now (instant e) | None => true end) = true
               <-> forall e, ExpiresAt c = Some e -> now < instant e).
  { destruct (ExpiresAt c) as [e|]; split.
    - intros H e' [= <-]. apply Z.ltb_lt, H.
    - intros H. apply Z.ltb_lt, H. reflexivity.
    - intros _ e' [=].
    - reflexivity. }
  assert (Hn : (match NotBefore c with Some n => negb (Z.ltb now (instant n)) | None => true end) = true
               <-> forall n, NotBefore c = Some n -> instant n <= now).
  { destruct (NotBefore c) as [n|]; split.
    - intros H n' [= <-]. apply negb_true_iff, Z.ltb_ge in H. exact H.
    - intros H. apply negb_true_iff, Z.ltb_ge, H. reflexivity.
    - intros _ n' [=].
    - reflexivity. }
  rewrite He, Hn. reflexivity.
Qed.

Definition accepted (secret : string) (now : Z) (tk : Token) : Prop :=
  is_hmac (Method tk) = true /\ SignedWith tk = secret
  /\ (forall e, ExpiresAt (TokenClaims tk) = Some e -> now < instant e)
  /\ (forall n, NotBefore (TokenClaims tk) = Some n -> instant n <= now).

Lemma validateToken_spec (decode : string -> option Token) (s secret : string) (now : Z) :
  match validateToken decode s secret now with
  | inr c => exists tk, decode s = Some tk /\ c = TokenClaims tk /\ accepted secret now tk
  | inl _ => forall tk, decode s = Some tk -> ~ accepted secret now tk
  end.
Proof.
  unfold validateToken, ParseWithClaims, accepted.
  destruct (decode s) as [tk|]; [|intros tk [=]].
  destruct (is_hmac (Method tk)) eqn:Em; cbn [negb];
    [|intros tk' [= <-] [H _]; congruence].
  destruct (String.eqb (SignedWith tk) secret) eqn:Es; cbn [negb];
    [|intros tk' [= <-] [_ [H _]]; apply String.eqb_neq in Es; contradiction].
  apply String.eqb_eq in Es.
  destruct (Validate (TokenClaims tk) now) eqn:Ev.
  - apply Validate_iff in Ev as [Ee En].
    assert (Hk : exists tk0, Some tk = Some tk0 /\ TokenClaims tk = TokenClaims tk0
                 /\ (is_hmac (Method tk0) = true /\ SignedWith tk0 = secret
                     /\ (forall e, ExpiresAt (TokenClaims tk0) = Some e -> now < instant e)
                     /\ (forall n, NotBefore (TokenClaims tk0) = Some n -> instant n <= now)))
      by (exists tk; auto 7).
    destruct (ExpiresAt (TokenClaims tk)) as [e|] eqn:Ex; [|exact Hk].
    specialize (Ee e eq_refl). replace (Z.ltb (instant e) now) with false by lia. exact Hk.
  - intros tk' [= <-] [_ [_ H]]. apply Validate_iff in H. congruence.
Qed.

Lemma Auth_guarded (cfg : AuthConfig) (decode : string -> option Token) (now : Z) (cx : Ctx) :
  HeaderName cfg = "Authorization" -> TokenPrefix cfg = "Bearer " ->
  existsb (fun prefix => HasPrefix (cx_path cx) prefix) (SkipPrefixes cfg) = false ->
  cx_isPublic cx <> Some true ->
  public_path cfg (cx_path cx) (cx_method cx) = false ->
  Auth cfg decode now cx
  = let h := c_Get "Authorization" (cx_headers cx) in
    if String.eqb h "" then unauthorized "Missing authorization header" else
    if String.eqb (TrimPrefix h "Bearer ") h then unauthorized "Invalid authorization format" else
    match validateToken decode (TrimPrefix h "Bearer ") (JWTSecret cfg) now with
    | inl msg => unauthorized msg
    | inr claims => AuthNext (user_headers claims (cx_headers cx)) (Some claims)
    end.
Proof.
  intros Hh Hp Hskip Hpub Hpp. unfold Auth. cbv zeta.
  rewrite Hskip. destruct (cx_isPublic cx) as [[|]|]; [now contradiction Hpub| |];
    rewrite Hpp, Hh, Hp; reflexivity.
Qed.

(** C8 (counterexample): a token signed with the secret under HS256,
    expiring after the current instant, but whose [nbf] lies in the future,
    is refused with 401 "Invalid token". *)
Definition early_claims : Claims :=
  {| UserID := "u1"; TenantID := "t1"; Email := "u1@example.com"; Roles := ["admin"];
     ExpiresAt := Some 2000; NotBefore := Some 1500 |}.

Definition early_decode (s : string) : option Token :=
  if String.eqb s "tok" then Some {| Method := HS256; SignedWith := "secret"; TokenClaims := early_claims |}
  else None.

Definition bearer_ctx : Ctx :=
  {| cx_path := "/api/v1/users/me"; cx_method := "GET";
     cx_headers := [("Authorization", "Bearer tok")]; cx_isPublic := Some false |}.

Lemma auth_not_yet_valid_counterexample :
  ExpiresAt early_claims = Some 2000 /\ instant 1000 < instant 2000
  /\ Auth (DefaultAuthConfig "secret") early_decode (instant 1000) bearer_ctx
     = AuthDenied 401 [("error", "unauthorized"); ("message", "Invalid token")].
Proof. split; [reflexivity|]. split; [unfold instant, RateLimit.Second; lia|]. reflexivity. Qed.

(** C8 (amended): for a request with no skip prefix matching its path, not
    marked public on the context and not a public path for its method, with
    the "Authorization" header and the "Bearer " prefix: a missing header,
    a header without the prefix, a malformed token or one that is not
    accepted is refused with 401 and error unauthorized; in particular a
    token whose expiry is not after the current instant is refused.  A token
    is accepted exactly when it is HMAC-signed with the secret, its expiry
    (if any) is after the current instant and its not-before (if any) is
    not after it; then the request passes with its claims stored and the
    X-User-* headers set. *)
Theorem auth_outcomes
    (cfg : AuthConfig) (decode : string -> option Token) (now : Z) (cx : Ctx)
    (Hh : HeaderName cfg = "Authorization") (Hp : TokenPrefix cfg = "Bearer ")
    (Hskip : existsb (fun prefix => HasPrefix (cx_path cx) prefix) (SkipPrefixes cfg) = false)
    (Hpub : cx_isPublic cx <> Some true)
    (Hpp : public_path cfg (cx_path cx) (cx_method cx) = false) :
  let h := c_Get "Authorization" (cx_headers cx) in
  let res := Auth cfg decode now cx in
  (h = "" -> exists msg, res = AuthDenied 401 [("error", "unauthorized"); ("message", msg)])
  /\ (HasPrefix h "Bearer " = false ->
      exists msg, res = AuthDenied 401 [("error", "unauthorized"); ("message", msg)])
  /\ (forall rest, h = "Bearer " ++ rest ->
      (decode rest = None ->
         exists msg, res = AuthDenied 401 [("error", "unauthorized"); ("message", msg)])
      /\ forall tk, decode rest = Some tk ->
         (forall e, ExpiresAt (TokenClaims tk) = Some e -> instant e <= now ->
            exists msg, res = AuthDenied 401 [("error", "unauthorized"); ("message", msg)])
         /\ (~ accepted (JWTSecret cfg) now tk ->
            exists msg, res = AuthDenied 401 [("error", "unauthorized"); ("message", msg)])
         /\ (accepted (JWTSecret cfg) now tk ->
            res = AuthNext (user_headers (TokenClaims tk) (cx_headers cx)) (Some (TokenClaims tk)))).
Proof.
  intros h res. unfold res. rewrite (Auth_guarded cfg decode now cx Hh Hp Hskip Hpub Hpp).
  cbv zeta. fold h.
  split; [|split].
  - intros E. rewrite E. eexists. reflexivity.
  - intros E. destruct (String.eqb h "") eqn:E0; [eexists; reflexivity|].
    rewrite (TrimPrefix_not_prefix h _ E), String.eqb_refl. eexists. reflexivity.
  - intros rest E.
    assert (Hne : String.eqb h "" = false) by (rewrite E; reflexivity).
    rewrite Hne. rewrite E, TrimPrefix_app.
    assert (Hr : String.eqb rest ("Bearer " ++ rest) = false)
      by (apply String.eqb_neq, app_nonempty_neq; discriminate).
    rewrite Hr.
    pose proof (validateToken_spec decode rest (JWTSecret cfg) now) as Hv.
    destruct (validateToken decode rest (JWTSecret cfg) now) as [msg|c].
    + split; [intros _; eexists; reflexivity|]. intros tk Htk.
      split; [intros; eexists; reflexivity|].
      split; [intros; eexists; reflexivity|].
      intros Ha. exfalso. exact (Hv tk Htk Ha).
    + destruct Hv as [tk0 [Hd [-> Ha0]]].
      split; [rewrite Hd; discriminate|]. intros tk Htk. rewrite Hd in Htk. injection Htk as <-.
      split; [|split].
      * intros e He Hle. destruct Ha0 as [_ [_ [Hlt _]]]. specialize (Hlt e He). lia.
      * intros Hn. contradiction.
      * intros _. reflexivity.
Qed.

Definition good_claims : Claims :=
  {| UserID := "u1"; TenantID := "t1"; Email := "u1@example.com"; Roles := ["admin"; "ops"];
     ExpiresAt := Some 2000; NotBefore := None |}.

Definition good_token : Token := {| Method := HS256; SignedWith := "secret"; TokenClaims := good_claims |}.

Definition good_decode (s : string) : option Token :=
  if String.eqb s "tok" then Some good_token else None.

Lemma good_token_accepted : accepted "secret" (instant 1000) good_token.
Proof.
  unfold accepted. split; [reflexivity|]. split; [reflexivity|].
  split; intros ? [=]; subst; unfold instant, RateLimit.Second; lia.
Qed.

Lemma auth_outcomes_witness :
  HeaderName (DefaultAuthConfig "secret") = "Authorization"
  /\ TokenPrefix (DefaultAuthConfig "secret") = "Bearer "
  /\ existsb (fun prefix => HasPrefix (cx_path bearer_ctx) prefix)
       (SkipPrefixes (DefaultAuthConfig "secret")) = false
  /\ cx_isPublic bearer_ctx <> Some true
  /\ public_path (DefaultAuthConfig "secret") (cx_path bearer_ctx) (cx_method bearer_ctx) = false
  /\ Auth (DefaultAuthConfig "secret") good_decode (instant 1000) bearer_ctx
     = AuthNext (user_headers good_claims (cx_headers bearer_ctx)) (Some good_claims).
Proof.
  split; [reflexivity|]. split; [reflexivity|]. split; [reflexivity|].
  split; [discriminate|]. split; [reflexivity|].
  exact (proj2 (proj2 (proj2 (proj2 (proj2 (auth_outcomes (DefaultAuthConfig "secret") good_decode
            (instant 1000) bearer_ctx eq_refl eq_refl eq_refl ltac:(discriminate) eq_refl))
            "tok" eq_refl) good_token eq_refl)) good_token_accepted).
Defined.

End AuthClaims.

(* ------------------------------------------------------------------ *)
(** ** Properties of the code beyond the specification's claims *)

Module HealthFacts.
Import Headers Proxy Health.
Local Open Scope Z_scope.

Definition with_health (svc : ServiceClient) (h : bool) : ServiceClient :=
  {| Name := Name svc; URL := URL svc; HealthPath := HealthPath svc; Healthy := h |}.

Lemma setServiceHealth_lookup (services : registry) (name other : string) (h : bool) :
  setServiceHealth services name h !! other
  = if String.eqb other name then (fun svc => with_health svc h) <$> services !! name
    else services !! other.
Proof.
  unfold setServiceHealth.
  destruct (String.eqb other name) eqn:E.
  - apply String.eqb_eq in E. subst other.
    destruct (services !! name) as [svc|] eqn:Es; [|simpl; exact Es].
    rewrite lookup_insert_eq. reflexivity.
  - apply String.eqb_neq in E.
    destruct (services !! name); [|reflexivity].
    rewrite lookup_insert_ne by congruence. reflexivity.
Qed.

(** X1: [HealthCheck] of an unregistered service reports [false] and
    changes nothing; for a registered service it reports [true] exactly
    when the probe of [URL ++ HealthPath] answered with a 2xx status, stores
    that flag as the service's [Healthy] and leaves every other service
    unchanged. *)
Theorem healthcheck_records_result (services : registry) (do_ : probe) (name : string) :
  (services !! name = None -> HealthCheck services do_ name = (services, false))
  /\ (forall svc, services !! name = Some svc ->
        fst (HealthCheck services do_ name) !! name
          = Some (with_health svc (snd (HealthCheck services do_ name)))
        /\ (snd (HealthCheck services do_ name) = true
            <-> exists code, do_ svc (URL svc ++ HealthPath svc) = inr code /\ 200 <= code < 300))
  /\ (forall other, other <> name ->
        fst (HealthCheck services do_ name) !! other = services !! other).
Proof.
  unfold HealthCheck. split; [|split].
  - intros H. rewrite H. reflexivity.
  - intros svc H. rewrite H.
    destruct (do_ svc (URL svc ++ HealthPath svc)) as [err|code] eqn:Ed; cbn [fst snd];
      rewrite setServiceHealth_lookup, String.eqb_refl, H; split; try reflexivity.
    + split; [discriminate|]. intros [code [[=] _]].
    + rewrite andb_true_iff, Z.leb_le, Z.ltb_lt. split.
      * intros Hc. exists code. split; [reflexivity|lia].
      * intros [c [[= <-] Hc]]. lia.
  - intros other Ho. destruct (services !! name) as [svc|] eqn:H; [|reflexivity].
    destruct (do_ svc _); cbn [fst]; rewrite setServiceHealth_lookup;
      replace (String.eqb other name) with false by (symmetry; apply String.eqb_neq; exact Ho);
      reflexivity.
Qed.

Lemma forallb_false_ex {A : Type} (f : A -> bool) (l : list A) :
  forallb f l = false -> exists x, In x l /\ f x = false.
Proof.
  induction l as [|a l IH]; simpl; [discriminate|].
  destruct (f a) eqn:Ea; simpl; [intros H; destruct (IH H) as [x [Hx Hf]]; eauto|eauto].
Qed.

Lemma unhealthy_of_forallb (services : registry) :
  forallb snd (map_to_list (GetServicesHealth services)) = false ->
  exists name svc, services !! name = Some svc /\ Healthy svc = false.
Proof.
  intros H. apply forallb_false_ex in H as [[name h] [Hin Hh]]. simpl in Hh. subst h.
  apply list_elem_of_In, elem_of_map_to_list in Hin. unfold GetServicesHealth in Hin.
  rewrite lookup_fmap in Hin. destruct (services !! name) as [svc|] eqn:Hs; [|discriminate].
  injection Hin as Hh. eauto.
Qed.

Lemma Ready_ok_iff (services : registry) :
  fst (Ready services) = 200
  <-> forall name svc, services !! name = Some svc -> Healthy svc = true.
Proof.
  unfold Ready. cbv zeta.
  assert (E : forallb snd (map_to_list (GetServicesHealth services)) = true
              <-> forall name svc, services !! name = Some svc -> Healthy svc = true).
  { rewrite forallb_forall. split.
    - intros H name svc Hs. apply (H (name, Healthy svc)).
      apply list_elem_of_In, elem_of_map_to_list. unfold GetServicesHealth.
      rewrite lookup_fmap, Hs. reflexivity.
    - intros H [name h] Hin. apply list_elem_of_In, elem_of_map_to_list in Hin.
      unfold GetServicesHealth in Hin. rewrite lookup_fmap in Hin.
      destruct (services !! name) as [svc|] eqn:Hs; [|discriminate].
      injection Hin as <-. exact (H name svc Hs). }
  destruct (forallb snd (map_to_list (GetServicesHealth services))) eqn:F; cbn [fst].
  - split; [intros _; apply E; reflexivity|reflexivity].
  - split; [discriminate|]. intros H. apply E in H. discriminate.
Qed.

(** X2: the readiness endpoint answers 200 "ready" exactly when every
    registered service is marked healthy, and 503 "not_ready" otherwise. *)
Theorem ready_iff_all_healthy (services : registry) :
  (Ready services = (200, "ready")
   <-> forall name svc, services !! name = Some svc -> Healthy svc = true)
  /\ (Ready services = (503, "not_ready")
   <-> exists name svc, services !! name = Some svc /\ Healthy svc = false).
Proof.
  pose proof (Ready_ok_iff services) as H.
  assert (Hc : Ready services = (200, "ready") \/ Ready services = (503, "not_ready"))
    by (unfold Ready; destruct (forallb _ _); auto).
  split.
  - rewrite <- H. split; [intros ->; reflexivity|].
    destruct Hc as [->| ->]; [reflexivity|discriminate].
  - split.
    + intros Hn. apply unhealthy_of_forallb. unfold Ready in Hn.
      destruct (forallb _ _); [discriminate|reflexivity].
    + intros [name [svc [Hs Hh]]]. destruct Hc as [Hok|Hok]; [|exact Hok].
      assert (Hf : fst (Ready services) = 200) by (rewrite Hok; reflexivity).
      rewrite (proj1 H Hf name svc Hs) in Hh. discriminate.
Qed.

End HealthFacts.

Module HealthForwardFacts.
Import Headers Proxy Health HealthFacts.
Local Open Scope Z_scope.

Lemma HealthCheck_lookup_self (services : registry) (do_ : probe) (name : string) (svc : ServiceClient) :
  services !! name = Some svc ->
  fst (HealthCheck services do_ name) !! name
  = Some (with_health svc (snd (HealthCheck services do_ name))).
Proof.
  intros Hs. unfold HealthCheck. rewrite Hs.
  destruct (do_ svc _); cbn [fst snd]; rewrite setServiceHealth_lookup, String.eqb_refl, Hs;
    reflexivity.
Qed.

(** X3: once a health check of a registered service has failed, [Forward]
    to that service answers 503 without sending anything upstream and the
    readiness endpoint answers 503 "not_ready"; once it has succeeded,
    [Forward] sends the request upstream. *)
Theorem healthcheck_gates_forward (services : registry) (probe_ : probe) (name : string)
    (svc : ServiceClient) (Hs : services !! name = Some svc)
    (do_ : transport) (rq : ClientRequest) (resp_hdrs : header_list) (rid strip : string) :
  let services' := fst (HealthCheck services probe_ name) in
  (snd (HealthCheck services probe_ name) = false ->
     fst (Forward services' do_ rq resp_hdrs rid name strip) = None
     /\ rs_status (snd (Forward services' do_ rq resp_hdrs rid name strip)) = 503
     /\ Ready services' = (503, "not_ready"))
  /\ (snd (HealthCheck services probe_ name) = true ->
     fst (Forward services' do_ rq resp_hdrs rid name strip) <> None).
Proof.
  intros services'. pose proof (HealthCheck_lookup_self services probe_ name svc Hs) as Hl.
  fold services' in Hl.
  destruct (snd (HealthCheck services probe_ name)) eqn:Eh.
  - split; [discriminate|]. intros _. unfold Forward. rewrite Hl. simpl.
    destruct (do_ _ _); discriminate.
  - split; [|discriminate]. intros _. unfold Forward. rewrite Hl. simpl.
    split; [reflexivity|]. split; [reflexivity|].
    unfold Ready. destruct (forallb _ _) eqn:F; [|reflexivity].
    exfalso.
    assert (Hf : fst (Ready services') = 200) by (unfold Ready; rewrite F; reflexivity).
    pose proof (proj1 (Ready_ok_iff services') Hf name _ Hl). discriminate.
Qed.

Definition auth_client : ServiceClient :=
  {| Name := "auth"; URL := "http://auth:8081"; HealthPath := "/health"; Healthy := true |}.

Definition down_probe : probe := fun _ _ => inl "connection refused".

Lemma healthcheck_gates_forward_witness :
  ({[ "auth" := auth_client ]} : registry) !! "auth" = Some auth_client
  /\ fst (Forward (fst (HealthCheck {[ "auth" := auth_client ]} down_probe "auth"))
            (fun _ _ => inl "unused")
            {| rq_method := "GET"; rq_path := "/me"; rq_query := ""; rq_headers := [];
               rq_body := ""; rq_host := "gw"; rq_ip := "10.0.0.1"; rq_protocol := "http" |}
            [] "" "auth" "") = None.
Proof.
  split; [reflexivity|].
  exact (proj1 (proj1 (healthcheck_gates_forward {[ "auth" := auth_client ]} down_probe "auth"
           auth_client eq_refl (fun _ _ => inl "unused")
           {| rq_method := "GET"; rq_path := "/me"; rq_query := ""; rq_headers := [];
              rq_body := ""; rq_host := "gw"; rq_ip := "10.0.0.1"; rq_protocol := "http" |}
           [] "" "") eq_refl)).
Defined.

End HealthForwardFacts.

Module HopFacts.
Import Headers Proxy HeaderFacts.

Lemma lower_upper (c : ascii) : to_lower (to_upper c) = to_lower c.
Proof. ascii_cases c. Qed.

Lemma lower_canon_loop (b : bool) (s : string) :
  lower_string (canon_loop b s) = lower_string s.
Proof.
  revert b; induction s as [|c s IH]; intros b; [reflexivity|]. simpl.
  rewrite IH. destruct b; [rewrite lower_upper|rewrite lower_lower]; reflexivity.
Qed.

(** X4: [isHopByHopHeader] holds exactly for the spellings, in any ASCII
    letter case, of Connection, Keep-Alive, Proxy-Authenticate,
    Proxy-Authorization, TE, Trailers, Transfer-Encoding and Upgrade; any
    other name, in particular one with a byte outside the token set such as
    "Connection " with a trailing space, is forwarded. *)
Theorem isHopByHopHeader_case_insensitive (k : string) :
  isHopByHopHeader k = hop_by_hop k.
Proof.
  destruct (hop_by_hop k) eqn:Eh; [apply hop_by_hop_filtered; exact Eh|].
  destruct (isHopByHopHeader k) eqn:Ei; [|reflexivity]. exfalso.
  unfold isHopByHopHeader, CanonicalHeaderKey in Ei.
  apply existsb_exists in Ei as [n [Hin Hn]]. apply String.eqb_eq in Hn.
  assert (Hl : lower_string k = lower_string n).
  { destruct (all_valid k) eqn:Ev.
    - rewrite <- Hn. symmetry. apply lower_canon_loop.
    - subst n. reflexivity. }
  unfold hop_by_hop in Eh.
  simpl in Hin; repeat (destruct Hin as [<-|Hin];
    [unfold same_name in Eh; simpl in Eh; rewrite Hl in Eh; discriminate|]); contradiction.
Qed.

End HopFacts.

Module RouterFacts.
Import Headers Proxy ProxyFacts Router.

Lemma HasPrefix_spec (s p : string) : HasPrefix s p = true <-> exists r, s = p ++ r.
Proof.
  revert s; induction p as [|c p IH]; intros s.
  - split; [intros _; exists s; reflexivity|reflexivity].
  - destruct s as [|d s]; simpl.
    + split; [discriminate|intros [r Hr]; rewrite append_cons in Hr; discriminate].
    + rewrite andb_true_iff, IH. split.
      * intros [Hc [r Hr]]. apply Ascii.eqb_eq in Hc. subst. exists r.
        rewrite append_cons. reflexivity.
      * intros [r Hr]. rewrite append_cons in Hr. injection Hr as <- Hr.
        split; [apply Ascii.eqb_refl|exists r; exact Hr].
Qed.

Lemma append_inv_l (p a b : string) : p ++ a = p ++ b -> a = b.
Proof.
  induction p as [|c p IH]; [exact id|]. rewrite !append_cons. intros H. injection H. exact IH.
Qed.

(** X5: [matchesPath] accepts a request path exactly when it is the route
    path, or the route path followed by a remainder that is empty or starts
    with "/"; so a route path ending in "/" such as "/api/" does not match
    "/api/x". *)
Theorem matchesPath_iff (requestPath routePath : string) :
  matchesPath requestPath routePath = true
  <-> requestPath = routePath
      \/ exists rest, requestPath = routePath ++ rest
                      /\ (rest = "" \/ exists rest', rest = "/" ++ rest').
Proof.
  unfold matchesPath.
  destruct (String.eqb requestPath routePath) eqn:E.
  { apply String.eqb_eq in E. split; [intros _; left; exact E|reflexivity]. }
  apply String.eqb_neq in E.
  destruct (HasPrefix requestPath routePath) eqn:Hp.
  - apply HasPrefix_spec in Hp as [rest ->]. rewrite TrimPrefix_app.
    rewrite orb_true_iff, String.eqb_eq, HasPrefix_spec. split.
    + intros H. right. exists rest. split; [reflexivity|exact H].
    + intros [H|[rest' [Hr H]]]; [contradiction|].
      apply append_inv_l in Hr. subst rest'. exact H.
  - split; [discriminate|]. intros [H|[rest [Hr _]]]; [contradiction|].
    assert (HasPrefix requestPath routePath = true) by (apply HasPrefix_spec; eauto).
    congruence.
Qed.

End RouterFacts.

Module RouteLookupFacts.
Import Headers Proxy ProxyFacts Router.

Definition route_matches (path method : string) (r : RouteCfg) : bool :=
  matchesPath path (r_Path r) && containsMethod (r_Methods r) method.

(** X6: [GetRouteForPath] returns the first route, in configuration order,
    whose path matches and which lists the method (so an earlier route
    shadows a later one), and [None] when no route does; [IsPublicRoute] is
    the [Public] flag of that route, and [false] when there is none. *)
Theorem GetRouteForPath_first_match (routes : list RouteCfg) (path method : string) :
  (forall r, GetRouteForPath routes path method = Some r
      <-> exists l1 l2, routes = (l1 ++ r :: l2)%list /\ route_matches path method r = true
                        /\ forall r', In r' l1 -> route_matches path method r' = false)
  /\ (GetRouteForPath routes path method = None
      <-> forall r, In r routes -> route_matches path method r = false)
  /\ IsPublicRoute routes path method
     = match GetRouteForPath routes path method with Some r => r_Public r | None => false end.
Proof.
  induction routes as [|r0 routes [IH1 [IH2 IH3]]]; simpl.
  - split; [|split; [|reflexivity]].
    + intros r. split; [discriminate|]. intros [l1 [l2 [H _]]]. destruct l1; discriminate.
    + split; [intros _ r []|reflexivity].
  - fold (route_matches path method r0).
    destruct (route_matches path method r0) eqn:E.
    + split; [|split; [|reflexivity]].
      * intros r. split.
        -- intros [= <-]. exists [], routes. split; [reflexivity|]. split; [exact E|intros ? []].
        -- intros [l1 [l2 [Hl [Hm Hn]]]]. destruct l1 as [|x l1].
           ++ injection Hl as <- _. reflexivity.
           ++ injection Hl as -> _. rewrite (Hn x (or_introl eq_refl)) in E. discriminate.
      * split; [discriminate|]. intros H. rewrite (H r0 (or_introl eq_refl)) in E. discriminate.
    + split; [|split; [|exact IH3]].
      * intros r. rewrite IH1. split.
        -- intros [l1 [l2 [Hl [Hm Hn]]]]. exists (r0 :: l1), l2. subst routes.
           split; [reflexivity|]. split; [exact Hm|].
           intros r' [<-|Hr']; [exact E|exact (Hn r' Hr')].
        -- intros [l1 [l2 [Hl [Hm Hn]]]]. destruct l1 as [|x l1].
           ++ injection Hl as <- _. rewrite Hm in E. discriminate.
           ++ injection Hl as <- Hl. exists l1, l2. split; [exact Hl|]. split; [exact Hm|].
              intros r' Hr'. apply Hn. right. exact Hr'.
      * rewrite IH2. split.
        -- intros H r [<-|Hr]; [exact E|exact (H r Hr)].
        -- intros H r Hr. apply H. right. exact Hr.
Qed.

(** X7: the registrations of [setupRoute]: none for a "gateway" route;
    otherwise each is on the wildcard pattern (the path itself if it ends in
    "*", else the path followed by "/*") or on the exact path, for a listed
    method whose upper-case form is one of GET, POST, PUT, DELETE, PATCH and
    OPTIONS, or for HEAD when the listed method is GET; and every such listed
    method is registered on both, a GET one together with HEAD on both. *)
Theorem setupRoute_registrations (route : RouteCfg) :
  let pattern := if HasSuffix (r_Path route) "*" then r_Path route else r_Path route ++ "/*" in
  (r_Service route = "gateway" -> setupRoute route = [])
  /\ (forall m q, In (m, q) (setupRoute route) ->
        (q = pattern \/ q = r_Path route)
        /\ exists method, In method (r_Methods route)
             /\ ((ToUpper method = m /\ In m routed_methods)
                 \/ (ToUpper method = "GET" /\ m = "HEAD")))
  /\ (r_Service route <> "gateway" ->
      forall method q, In method (r_Methods route) -> In (ToUpper method) routed_methods ->
        (q = pattern \/ q = r_Path route) ->
        In (ToUpper method, q) (setupRoute route)
        /\ (ToUpper method = "GET" -> In ("HEAD", q) (setupRoute route))).
Proof.
  intros pattern. unfold setupRoute. fold pattern.
  assert (Hreg : forall u p m q, In (m, q) (fiber_register u p) ->
            q = p /\ (m = u \/ (u = "GET" /\ m = "HEAD"))).
  { intros u p m q. unfold fiber_register.
    destruct (String.eqb u "GET") eqn:Eu.
    - apply String.eqb_eq in Eu. subst u.
      intros [[= <- <-]|[[= <- <-]|[]]]; auto.
    - intros [[= <- <-]|[]]; auto. }
  assert (Hin : forall u p, In (u, p) (fiber_register u p)
            /\ (u = "GET" -> In ("HEAD", p) (fiber_register u p))).
  { intros u p. unfold fiber_register. destruct (String.eqb u "GET") eqn:Eu.
    - apply String.eqb_eq in Eu. subst u. split; [right; left; reflexivity|left; reflexivity].
    - apply String.eqb_neq in Eu. split; [left; reflexivity|intros H; contradiction]. }
  split; [|split].
  - intros H. rewrite H. reflexivity.
  - intros m q. destruct (String.eqb (r_Service route) "gateway"); [intros []|].
    rewrite in_flat_map. intros [method [Hm Hr]].
    destruct (existsb (String.eqb (ToUpper method)) routed_methods) eqn:Ex; [|destruct Hr].
    apply existsb_exists in Ex as [u [Hu Heq]]. apply String.eqb_eq in Heq.
    apply in_app_or in Hr.
    assert (Hq : (q = pattern \/ q = r_Path route)
                 /\ (m = ToUpper method \/ (ToUpper method = "GET" /\ m = "HEAD"))).
    { destruct Hr as [Hr|Hr]; apply Hreg in Hr as [Hq Hm']; auto. }
    destruct Hq as [Hq [->|Hh]]; (split; [exact Hq|exists method; split; [exact Hm|]]).
    + left. split; [reflexivity|rewrite Heq; exact Hu].
    + right. exact Hh.
  - intros Hg method q Hm Hu Hq.
    replace (String.eqb (r_Service route) "gateway") with false
      by (symmetry; apply String.eqb_neq; exact Hg).
    assert (Ex : existsb (String.eqb (ToUpper method)) routed_methods = true).
    { apply existsb_exists. exists (ToUpper method). split; [exact Hu|apply String.eqb_refl]. }
    assert (Hl : forall x, In x (fiber_register (ToUpper method) q) ->
                 In x (flat_map (fun method0 => if existsb (String.eqb (ToUpper method0)) routed_methods
                     then app (fiber_register (ToUpper method0) pattern)
                          (fiber_register (ToUpper method0) (r_Path route)) else [])
                   (r_Methods route))).
    { intros x Hx. apply in_flat_map. exists method. split; [exact Hm|]. rewrite Ex.
      apply in_or_app. destruct Hq as [->| ->]; auto. }
    destruct (Hin (ToUpper method) q) as [H1 H2].
    split; [apply Hl, H1|intros Hget; apply Hl, H2, Hget].
Qed.

(** X8: the handler that [setupRoute] attaches to a route stores the
    route's [Public] flag and service name and forwards to the route's
    service; with [strip_prefix] set, a request for the route path followed
    by [rest] reaches the service's URL followed by [rest] ("/" when [rest]
    is empty) and by the query. *)
Theorem proxy_handler_strips_route_path (services : registry) (do_ : transport)
    (route : RouteCfg) (svc : ServiceClient) (rq : ClientRequest) (resp_hdrs : header_list)
    (rid rest : string)
    (Hs : services !! r_Service route = Some svc) (Hh : Healthy svc = true)
    (Hstrip : r_StripPrefix route = true) (Hne : r_Path route <> "")
    (Hpath : rq_path rq = r_Path route ++ rest) :
  fst (createProxyHandler services do_ route rq resp_hdrs rid) = (r_Public route, r_Service route)
  /\ exists ur, fst (snd (createProxyHandler services do_ route rq resp_hdrs rid)) = Some ur
     /\ up_uri ur = URL svc ++ (if String.eqb rest "" then "/" else rest) ++ query_suffix (rq_query rq).
Proof.
  split; [reflexivity|]. unfold createProxyHandler. rewrite Hstrip. cbn [snd].
  unfold Forward. rewrite Hs, Hh. cbn [negb].
  eexists. split; [destruct (do_ svc _); reflexivity|]. cbn [up_uri].
  rewrite target_url_shape. unfold upstream_path.
  replace (String.eqb (r_Path route) "") with false by (symmetry; apply String.eqb_neq; exact Hne).
  rewrite Hpath, TrimPrefix_app. reflexivity.
Qed.

Definition auth_route : RouteCfg :=
  {| r_Path := "/api/v1/auth"; r_Service := "auth"; r_Methods := ["GET"; "post"];
     r_Public := true; r_StripPrefix := true |}.

Definition auth_registry : registry :=
  {[ "auth" := {| Name := "auth"; URL := "http://auth:8081"; HealthPath := "/health"; Healthy := true |} ]}.

Definition login_request : ClientRequest :=
  {| rq_method := "POST"; rq_path := "/api/v1/auth/login"; rq_query := ""; rq_headers := [];
     rq_body := "{}"; rq_host := "gw"; rq_ip := "10.0.0.1"; rq_protocol := "http" |}.

Lemma proxy_handler_strips_route_path_witness :
  r_StripPrefix auth_route = true /\ r_Path auth_route <> ""
  /\ exists ur, fst (snd (createProxyHandler auth_registry (fun _ _ => inl "down") auth_route
                            login_request [] "")) = Some ur
                /\ up_uri ur = "http://auth:8081" ++ "/login" ++ "".
Proof.
  split; [reflexivity|]. split; [discriminate|].
  exact (proj2 (proxy_handler_strips_route_path auth_registry (fun _ _ => inl "down") auth_route
           {| Name := "auth"; URL := "http://auth:8081"; HealthPath := "/health"; Healthy := true |}
           login_request [] "" "/login" eq_refl eq_refl eq_refl ltac:(discriminate) eq_refl)).
Defined.

End RouteLookupFacts.

Module RateKeyFacts.
Import RateLimit RateLimitKeys ProxyFacts RouterFacts.

Lemma append_length_str (a b : string) : String.length (a ++ b) = (String.length a + String.length b)%nat.
Proof. induction a as [|x a IH]; [reflexivity|]. rewrite append_cons. simpl. rewrite IH. reflexivity. Qed.

Lemma append_inv_r (a b c : string) : a ++ c = b ++ c -> a = b.
Proof.
  revert b; induction a as [|x a IH]; intros [|y b] H; try reflexivity.
  - apply (f_equal String.length) in H. rewrite append_empty, append_length_str in H. simpl in H. lia.
  - apply (f_equal String.length) in H. rewrite append_empty, append_length_str in H. simpl in H. lia.
  - rewrite !append_cons in H. injection H as -> H. f_equal. exact (IH b H).
Qed.

(** X9: rate-limit keys of one identity (a user id, or an IP for anonymous
    requests) differ for different paths, and anonymous keys for one path
    differ for different IPs; but an authenticated user whose id is "ip:"
    followed by an address shares the bucket of anonymous requests from that
    address. *)
Theorem createKey_separation :
  (forall user ip p1 p2, createKey user ip p1 = createKey user ip p2 -> p1 = p2)
  /\ (forall ip1 ip2 path, createKey None ip1 path = createKey None ip2 path -> ip1 = ip2)
  /\ (forall ip ip' path, createKey (Some ("ip:" ++ ip)) ip' path = createKey None ip path).
Proof.
  split; [|split].
  - intros [u|] ip p1 p2; unfold createKey; intros H.
    + do 3 apply append_inv_l in H. exact H.
    + do 3 apply append_inv_l in H. exact H.
  - intros ip1 ip2 path. unfold createKey. intros H.
    apply append_inv_l in H. exact (append_inv_r _ _ _ H).
  - intros ip ip' path. unfold createKey. rewrite !append_assoc_str. reflexivity.
Qed.

End RateKeyFacts.

Module BucketFacts.
Import RateLimit RateLimitKeys.
Local Open Scope Z_scope.

Lemma inject_Z_le_Z (x y : Z) : (inject_Z x <= inject_Z y)%Q <-> x <= y.
Proof. rewrite <- Zle_Qle. reflexivity. Qed.

Lemma inject_Z_sub1 (k : Z) : (inject_Z k - 1 == inject_Z (k - 1))%Q.
Proof. unfold Qeq; simpl; lia. Qed.

Lemma Seconds_zero : (Seconds 0 == 0)%Q.
Proof. reflexivity. Qed.

Lemma allow_existing_same_instant (st : buckets) (key : string) (rps burst now : Z)
    (b : rateBucket) (k : Z) :
  st !! key = Some b -> lastCheck b = now -> (tokens b == inject_Z k)%Q -> k <= burst ->
  exists b', fst (allow st key rps burst now) = <[key := b']> st
    /\ lastCheck b' = now
    /\ (1 <= k -> (tokens b' == inject_Z (k - 1))%Q
                  /\ snd (allow st key rps burst now) = Some (true, k - 1, Unix (now + Second)))
    /\ (k < 1 -> (tokens b' == inject_Z k)%Q
                 /\ snd (allow st key rps burst now)
                    = if Z.eqb rps 0 then None else Some (false, 0, Unix (now + Z.quot Second rps))).
Proof.
  intros Hs Hl Ht Hk. unfold allow. rewrite Hs. cbv zeta.
  rewrite Hl, Z.sub_diag.
  assert (Ht0 : (tokens b + Seconds 0 * inject_Z rps == inject_Z k)%Q)
    by (rewrite Seconds_zero, Ht; ring).
  assert (Hq : qmin (inject_Z burst) (tokens b + Seconds 0 * inject_Z rps)
               = (tokens b + Seconds 0 * inject_Z rps)%Q).
  { unfold qmin. destruct (Qlt_le_dec _ _) as [Hlt|]; [|reflexivity].
    exfalso. rewrite Ht0 in Hlt. apply Qlt_not_le in Hlt. apply Hlt, inject_Z_le_Z; lia. }
  rewrite Hq.
  destruct (Qle_bool 1 (tokens b + Seconds 0 * inject_Z rps)) eqn:E.
  - apply Qle_bool_iff in E. rewrite Ht0 in E.
    assert (Hk1 : 1 <= k) by (apply (inject_Z_le_Z 1 k) in E; lia).
    eexists. split; [reflexivity|]. split; [reflexivity|]. split.
    + intros _. split; [simpl; rewrite Ht0; apply inject_Z_sub1|].
      cbn [snd]. f_equal. f_equal. f_equal.
      assert (Hq' : ((tokens b + Seconds 0 * inject_Z rps) - 1 == inject_Z (k - 1))%Q)
        by (rewrite Ht0; apply inject_Z_sub1).
      unfold int_of_float.
      replace (Qle_bool 0 (tokens b + Seconds 0 * inject_Z rps - 1)) with true
        by (symmetry; apply Qle_bool_iff; rewrite Hq'; apply inject_Z_le_Z; lia).
      rewrite Hq'. apply Qfloor_Z.
    + intros Hk0. lia.
  - eexists. split; [reflexivity|]. split; [reflexivity|]. split.
    + intros Hk1. exfalso. assert (Hle : (1 <= inject_Z k)%Q) by (apply (inject_Z_le_Z 1 k); lia).
      rewrite <- Ht0 in Hle. apply Qle_bool_iff in Hle. congruence.
    + intros _. split; [exact Ht0|reflexivity].
Qed.

Lemma allow_seq_same_instant (n : nat) (st : buckets) (key : string) (rps burst now : Z)
    (b : rateBucket) (k : Z) :
  st !! key = Some b -> lastCheck b = now -> (tokens b == inject_Z k)%Q -> 0 <= k <= burst ->
  snd (fst (allow_seq st key rps burst (repeat now n)))
    = Z.min (Z.of_nat n) k
  /\ snd (allow_seq st key rps burst (repeat now n)) = (Z.eqb rps 0 && Nat.ltb (Z.to_nat k) n).
Proof.
  revert st b k. induction n as [|n IH]; intros st b k Hs Hl Ht Hk.
  - simpl. split; [lia|]. destruct (Nat.ltb _ 0) eqn:E;
      [apply Nat.ltb_lt in E; lia|]. destruct (Z.eqb rps 0); reflexivity.
  - destruct (allow_existing_same_instant st key rps burst now b k Hs Hl Ht (proj2 Hk))
      as [b' [Hst [Hl' [Hyes Hno]]]].
    cbn [repeat allow_seq].
    destruct (allow st key rps burst now) as [st' out] eqn:Ea. cbn [fst snd] in *.
    destruct (Z_lt_le_dec k 1) as [Hk0|Hk1].
    + destruct (Hno Hk0) as [Ht' Hout]. rewrite Hout.
      assert (k = 0) by lia. subst k.
      destruct (Z.eqb rps 0) eqn:Er.
      * simpl. split; [lia|reflexivity].
      * destruct (IH st' b' 0 ltac:(subst st'; apply lookup_insert_eq) Hl' Ht' ltac:(lia))
          as [IH1 IH2].
        destruct (allow_seq st' key rps burst (repeat now n)) as [[st'' c] p].
        cbn [fst snd] in *. split; [lia|]. rewrite IH2; reflexivity.
    + destruct (Hyes Hk1) as [Ht' Hout]. rewrite Hout.
      destruct (IH st' b' (k - 1) ltac:(subst st'; apply lookup_insert_eq) Hl' Ht' ltac:(lia))
        as [IH1 IH2].
      destruct (allow_seq st' key rps burst (repeat now n)) as [[st'' c] p].
      cbn [fst snd] in *. split.
      * lia.
      * rewrite IH2. replace (Z.to_nat k) with (S (Z.to_nat (k - 1))) by lia.
        reflexivity.
Qed.

(** X10: on a key the local limiter has not seen, with a burst of at
    least 1, [n] requests at the same instant are allowed [min n burst]
    times; when [rps = 0] the first request beyond the burst panics (the
    division [time.Second / time.Duration(rps)]), otherwise none does. *)
Theorem local_burst_same_instant (n : nat) (st : buckets) (key : string) (rps burst now : Z) :
  st !! key = None -> 1 <= burst ->
  snd (fst (allow_seq st key rps burst (repeat now n))) = Z.min (Z.of_nat n) burst
  /\ snd (allow_seq st key rps burst (repeat now n)) = (Z.eqb rps 0 && Nat.ltb (Z.to_nat burst) n).
Proof.
  intros Hs Hb. destruct n as [|n].
  - simpl. split; [lia|]. destruct (Z.eqb rps 0); reflexivity.
  - cbn [repeat allow_seq]. unfold allow. rewrite Hs.
    set (b := {| tokens := inject_Z (burst - 1); lastCheck := now |}).
    destruct (allow_seq_same_instant n (<[key := b]> st) key rps burst now b (burst - 1)
                (lookup_insert_eq _ _ _) eq_refl (Qeq_refl _) ltac:(lia)) as [H1 H2].
    destruct (allow_seq (<[key := b]> st) key rps burst (repeat now n)) as [[st' c] p].
    cbn [fst snd] in *. split; [lia|].
    rewrite H2. replace (Z.to_nat burst) with (S (Z.to_nat (burst - 1))) by lia.
    reflexivity.
Qed.

Lemma local_burst_same_instant_witness :
  (∅ : buckets) !! "k" = None /\ 1 <= 3 /\
  snd (fst (allow_seq ∅ "k" 0 3 (repeat 7 5))) = 3 /\ snd (allow_seq ∅ "k" 0 3 (repeat 7 5)) = true.
Proof.
  split; [apply lookup_empty|]. split; [lia|].
  destruct (local_burst_same_instant 5 ∅ "k" 0 3 7 (lookup_empty "k") ltac:(lia)) as [H1 H2].
  split; [rewrite H1; reflexivity | rewrite H2; reflexivity].
Defined.

End BucketFacts.

Module LimiterStoreFacts.
Import RateLimit RateLimitKeys.
Local Open Scope Z_scope.

Lemma Qfloor_between (z : Z) (x : Q) :
  (inject_Z z <= x)%Q -> (x < inject_Z (z + 1))%Q -> Qfloor x = z.
Proof.
  intros H1 H2. pose proof (Qfloor_le x) as Hl. pose proof (Qlt_floor x) as Hu.
  assert (Ha : (inject_Z z < inject_Z (Qfloor x + 1))%Q) by lra.
  assert (Hb : (inject_Z (Qfloor x) < inject_Z (z + 1))%Q) by lra.
  rewrite <- Zlt_Qlt in Ha, Hb. lia.
Qed.

Lemma Qinv_pos_half (r : Z) : 1 <= r -> (0 < / inject_Z r)%Q /\ (2 <= r -> (/ inject_Z r <= 1 # 2)%Q).
Proof.
  intros H. destruct r as [|p|p]; try lia. unfold Qinv, Qlt, Qle. simpl. split; [lia|]. intros. lia.
Qed.

(** X12: one tick of the sweeper keeps exactly the buckets checked at or
    after [now - interval]; a key it removed is treated by the next [allow]
    as a key never seen: the request is allowed and the bucket restarts at
    [burst - 1] tokens, whatever the bucket held before. *)
Theorem cleanup_forgets_stale (st : buckets) (interval now : Z) :
  (forall k b, cleanup st interval now !! k = Some b <->
               st !! k = Some b /\ now - interval <= lastCheck b)
  /\ (forall k b rps burst t, st !! k = Some b -> lastCheck b < now - interval ->
        allow (cleanup st interval now) k rps burst t
        = (<[k := {| tokens := inject_Z (burst - 1); lastCheck := t |}]> (cleanup st interval now),
           Some (true, burst - 1, Unix (t + Second)))).
Proof.
  split.
  - intros k b. unfold cleanup. rewrite map_lookup_filter_Some. simpl. split.
    + intros [H1 H2]. split; [exact H1 | lia].
    + intros [H1 H2]. split; [exact H1 | lia].
  - intros k b rps burst t Hs Hl. unfold allow.
    assert (Hn : cleanup st interval now !! k = None).
    { unfold cleanup. apply map_lookup_filter_None. right.
      intros x Hx. rewrite Hs in Hx. injection Hx as <-. simpl. lia. }
    rewrite Hn. reflexivity.
Qed.

(** X13: the Redis bucket stays within [0, burst] and its reply reports
    the stored tokens.  With [rps >= 0], [burst >= 0] and a stored state
    within bounds written no later than [now], the script stores [now] as
    the last instant and a token count in [0, burst], replies that count as
    remaining, leaves 0 tokens when it refuses, and admits a request on an
    absent key exactly when [burst >= 1]. *)
Theorem redis_bucket_invariant (data : option (Z * Z)) (rps burst now : Z) :
  0 <= rps -> 0 <= burst ->
  match data with Some (t, l) => 0 <= t <= burst /\ l <= now | None => True end ->
  let '((t', l'), (allowed, remaining, _)) := redisAllow data rps burst now in
  l' = now /\ 0 <= t' <= burst /\ remaining = t' /\ (allowed = false -> t' = 0)
  /\ (data = None -> (allowed = true <-> 1 <= burst)).
Proof.
  intros Hr Hb Hd. unfold redisAllow, redisScript. cbv zeta.
  assert (Hbase : 0 <= Z.min burst (match data with Some (t, _) => t | None => burst end
                    + (now - match data with Some (_, l) => l | None => now end) * rps)
                 <= burst).
  { destruct data as [[t l]|]; [|lia]. destruct Hd as [Ht Hl].
    assert (0 <= (now - l) * rps) by nia. lia. }
  destruct (Z.leb 1 _) eqn:E.
  - apply Z.leb_le in E. cbn. split; [reflexivity|]. split; [lia|]. split; [reflexivity|].
    split; [discriminate|]. intros ->. split; intros _; [|reflexivity]. lia.
  - apply Z.leb_gt in E. cbn. split; [reflexivity|]. split; [lia|]. split; [reflexivity|].
    split; [intros _; lia|]. intros ->. split; [discriminate|]. lia.
Qed.

Lemma redis_bucket_invariant_witness :
  0 <= 2 /\ 0 <= 5 /\ (0 <= 1 <= 5 /\ 10 <= 12) /\
  (let '((t', l'), (allowed, remaining, _)) := redisAllow (Some (1, 10)) 2 5 12 in
   l' = 12 /\ 0 <= t' <= 5 /\ remaining = t' /\ (allowed = false -> t' = 0)
   /\ (Some (1, 10) = None -> (allowed = true <-> 1 <= 5))).
Proof.
  split; [lia|]. split; [lia|]. split; [lia|].
  exact (redis_bucket_invariant (Some (1, 10)) 2 5 12 ltac:(lia) ltac:(lia) ltac:(simpl; lia)).
Defined.

(** X14: the reset instant the Redis path replies, [now + 1/rate] cut to
    an integer: for a rate of 1 it is the next second, for any rate of 2
    or more it is the current second [now] itself. *)
Theorem redis_reset_second (data : option (Z * Z)) (rps burst now : Z) :
  0 <= now -> 1 <= rps ->
  snd (snd (redisAllow data rps burst now)) = Some (if Z.eqb rps 1 then now + 1 else now).
Proof.
  intros Hn Hr. unfold redisAllow, redisScript. cbv zeta.
  replace (Z.ltb 0 rps) with true by (symmetry; apply Z.ltb_lt; lia).
  assert (H : int_of_float (inject_Z now + / inject_Z rps)%Q
              = if Z.eqb rps 1 then now + 1 else now).
  { destruct (Qinv_pos_half rps Hr) as [Hi Hh].
    assert (H0 : (0 <= inject_Z now)%Q) by (change 0%Q with (inject_Z 0); rewrite <- Zle_Qle; lia).
    unfold int_of_float.
    replace (Qle_bool 0 (inject_Z now + / inject_Z rps)) with true
      by (symmetry; apply Qle_bool_iff; lra).
    destruct (Z.eqb rps 1) eqn:E1.
    - apply Z.eqb_eq in E1. subst rps. change (/ inject_Z 1)%Q with 1%Q.
      apply Qfloor_between.
      + rewrite inject_Z_plus. change (inject_Z 1) with 1%Q. lra.
      + rewrite !inject_Z_plus. change (inject_Z 1) with 1%Q. lra.
    - apply Z.eqb_neq in E1. specialize (Hh ltac:(lia)). apply Qfloor_between; [lra|].
      rewrite inject_Z_plus. change (inject_Z 1) with 1%Q. lra. }
  destruct (Z.leb 1 _); cbn; rewrite H; reflexivity.
Qed.

Lemma redis_reset_second_witness :
  0 <= 1700000000 /\ 1 <= 10 /\
  snd (snd (redisAllow None 10 20 1700000000)) = Some 1700000000.
Proof.
  split; [lia|]. split; [lia|].
  exact (redis_reset_second None 10 20 1700000000 ltac:(lia) ltac:(lia)).
Defined.

End LimiterStoreFacts.

Module BreakerFacts.
Import Breaker.
Local Open Scope Z_scope.

Lemma currentState_open_expired (cb : CircuitBreaker) (e now : Z) :
  state cb = StateOpen -> expiry cb = Some e -> e < now ->
  currentState cb now = with_state cb StateHalfOpen (generation cb + 1) zero_counts None.
Proof.
  intros Hs He Hl. unfold currentState. rewrite Hs, He. cbn [expired].
  replace (Z.ltb e now) with true by (symmetry; apply Z.ltb_lt; lia).
  unfold setState. rewrite Hs. reflexivity.
Qed.

Lemma Execute_open_expired (cb : CircuitBreaker) (e now now' : Z) (success : bool) :
  state cb = StateOpen -> expiry cb = Some e -> e < now -> 0 < maxRequests cb ->
  Execute cb now now' success
  = (let cb2 := with_state cb StateHalfOpen (generation cb + 1)
                  (onRequest zero_counts) None in
     if success then onSuccess cb2 now' else onFailure cb2 now', None).
Proof.
  intros Hs He Hl Hm. unfold Execute, beforeRequest.
  rewrite (currentState_open_expired cb e now Hs He Hl). cbn [state maxRequests with_state counts].
  replace (Z.leb (maxRequests cb) (Requests zero_counts)) with false
    by (symmetry; apply Z.leb_gt; cbn; lia).
  unfold afterRequest. cbv zeta. unfold with_counts. cbn [with_state currentState state counts generation expiry].
  unfold currentState. cbn [with_state state]. rewrite Z.eqb_refl. cbn [negb].
  reflexivity.
Qed.

(** X15: the life of an Open breaker whose timeout expires at [e].  Up to
    [e] every call is refused with [ErrOpenState] and leaves the breaker
    as it is.  The first call after [e] runs as a half-open probe (when
    [maxRequests > 0]): if it fails the breaker opens again until
    [now' + timeout], where [now'] is the instant the call returned; if it
    succeeds the breaker closes when [maxRequests <= 1] and stays half-open
    otherwise. *)
Theorem open_breaker_lifecycle (cb : CircuitBreaker) (e : Z) :
  state cb = StateOpen -> expiry cb = Some e ->
  (forall now now' success, now <= e -> Execute cb now now' success = (cb, Some ErrOpenState))
  /\ (forall now now', e < now -> 0 < maxRequests cb ->
        snd (Execute cb now now' false) = None
        /\ state (fst (Execute cb now now' false)) = StateOpen
        /\ expiry (fst (Execute cb now now' false)) = Some (now' + timeout cb))
  /\ (forall now now', e < now -> 0 < maxRequests cb ->
        snd (Execute cb now now' true) = None
        /\ state (fst (Execute cb now now' true))
           = if Z.leb (maxRequests cb) 1 then StateClosed else StateHalfOpen).
Proof.
  intros Hs He. split; [|split].
  - intros now now' success Hle. unfold Execute, beforeRequest, currentState.
    rewrite Hs, He. cbn [expired]. replace (Z.ltb e now) with false by (symmetry; apply Z.ltb_ge; lia).
    rewrite Hs. reflexivity.
  - intros now now' Hlt Hm. rewrite (Execute_open_expired cb e now now' false Hs He Hlt Hm).
    cbv zeta. unfold onFailure, setState. cbn [with_state state state_eqb].
    unfold toNewGeneration. cbn [with_state state expiry timeout fst snd].
    split; [reflexivity|]. split; reflexivity.
  - intros now now' Hlt Hm. rewrite (Execute_open_expired cb e now now' true Hs He Hlt Hm).
    cbv zeta. unfold onSuccess. cbn [with_state state]. unfold with_counts.
    cbn [with_state state counts maxRequests].
    replace (ConsecutiveSuccesses (onSuccessCounts (onRequest zero_counts))) with 1 by reflexivity.
    split; [reflexivity|].
    destruct (Z.leb (maxRequests cb) 1); [|reflexivity].
    unfold setState. cbn [with_state state state_eqb]. unfold toNewGeneration. reflexivity.
Qed.

Definition open_cb : CircuitBreaker :=
  {| maxRequests := 1; interval := 0; timeout := 60; readyToTrip := fun _ => true;
     state := StateOpen; generation := 3; counts := zero_counts; expiry := Some 100 |}.

Lemma open_breaker_lifecycle_witness :
  state open_cb = StateOpen /\ expiry open_cb = Some 100 /\
  Execute open_cb 100 101 true = (open_cb, Some ErrOpenState) /\
  state (fst (Execute open_cb 101 102 true)) = StateClosed.
Proof.
  split; [reflexivity|]. split; [reflexivity|].
  destruct (open_breaker_lifecycle open_cb 100 eq_refl eq_refl) as [H1 [_ H3]].
  split; [exact (H1 100 101 true ltac:(lia))|].
  exact (proj2 (H3 101 102 ltac:(lia) ltac:(simpl; lia))).
Defined.

(** X16: the circuit-breaker middleware only ever touches the breaker of
    the request's own service: every other entry of the breaker map is the
    same after the request. *)
Theorem circuit_middleware_isolation (cfg : CircuitConfig) (m : breakers) (service : option string)
    (route : option Route) (now now' next_status : Z) (next_ok : bool) (other : string) :
  service <> Some other ->
  fst (Middleware cfg m service route now now' next_status next_ok) !! other = m !! other.
Proof.
  intros Hne. unfold Middleware.
  destruct (negb (cc_Enabled cfg)); [reflexivity|].
  destruct service as [s|]; [|reflexivity].
  assert (Hso : s <> other) by congruence.
  destruct (String.eqb s "" || String.eqb s "gateway"); [reflexivity|].
  destruct (match route with Some r => negb (route_CircuitBreaker r) | None => false end);
    [reflexivity|].
  unfold GetBreaker. destruct (m !! s) as [cb|] eqn:Em.
  - destruct (Execute cb now now' _) as [cb' err]. cbn [fst].
    rewrite lookup_insert_ne by exact Hso. reflexivity.
  - destruct (Execute (NewCircuitBreaker cfg now) now now' _) as [cb' err]. cbn [fst].
    rewrite lookup_insert_ne by exact Hso. rewrite lookup_insert_ne by exact Hso. reflexivity.
Qed.

Lemma circuit_middleware_isolation_witness :
  Some "auth" <> Some "users" /\
  fst (Middleware BreakerClaims.cfg_trip2 (<[ "users" := open_cb ]> ∅) (Some "auth") None 0 0 500 true)
    !! "users" = Some open_cb.
Proof.
  split; [discriminate|].
  rewrite (circuit_middleware_isolation BreakerClaims.cfg_trip2 (<[ "users" := open_cb ]> ∅)
             (Some "auth") None 0 0 500 true "users" ltac:(discriminate)).
  apply lookup_insert_eq.
Defined.

End BreakerFacts.

Module AuthFacts.
Import Headers HeaderFacts Proxy Auth AuthExtra.
Local Open Scope Z_scope.

Lemma existsb_EqualFold2 (rs us : list string) :
  existsb (fun r => existsb (fun u => EqualFold r u) us) rs = true
  <-> exists r u, In r rs /\ In u us /\ lower_string r = lower_string u.
Proof.
  rewrite existsb_exists. unfold EqualFold, same_name. split.
  - intros [r [Hr H]]. apply existsb_exists in H as [u [Hu H]].
    exists r, u. split; [exact Hr|]. split; [exact Hu|]. apply String.eqb_eq; exact H.
  - intros [r [u [Hr [Hu H]]]]. exists r. split; [exact Hr|].
    apply existsb_exists. exists u. split; [exact Hu|]. apply String.eqb_eq; exact H.
Qed.

(** X17: [RequireRoles] refuses with 401 when no claims are stored, lets
    the request through exactly when some required role equals some role
    of the user up to ASCII case, and refuses with 403 otherwise; in
    particular an empty list of required roles refuses every user. *)
Theorem require_roles_outcomes (roles : list string) :
  RequireRoles roles None = GDenied 401 [("error", "unauthorized"); ("message", "No user context found")]
  /\ (forall claims, RequireRoles roles (Some claims) = GNext
        <-> exists r u, In r roles /\ In u (Roles claims) /\ lower_string r = lower_string u)
  /\ (forall claims, RequireRoles roles (Some claims) <> GNext ->
        RequireRoles roles (Some claims)
        = GDenied 403 [("error", "forbidden"); ("message", "Insufficient permissions")]).
Proof.
  split; [reflexivity|]. split.
  - intros claims. unfold RequireRoles. rewrite <- existsb_EqualFold2.
    destruct (existsb _ roles); split; congruence.
  - intros claims. unfold RequireRoles. destruct (existsb _ roles); [intros H; contradiction H; reflexivity|].
    intros _; reflexivity.
Qed.

Lemma Auth_next_user (cfg : AuthConfig) (decode : string -> option Token) (now : Z) (cx : Ctx)
    (hs : header_list) (claims : Claims) :
  Auth cfg decode now cx = AuthNext hs (Some claims) -> hs = user_headers claims (cx_headers cx).
Proof.
  unfold Auth. cbv zeta. intros H.
  destruct (existsb _ (SkipPrefixes cfg)); [congruence|].
  destruct (cx_isPublic cx) as [[|]|]; [congruence| |];
  (destruct (public_path cfg _ _); [congruence|];
   destruct (String.eqb (c_Get (HeaderName cfg) (cx_headers cx)) ""); [discriminate|];
   destruct (String.eqb _ (c_Get (HeaderName cfg) (cx_headers cx))); [discriminate|];
   destruct (validateToken _ _ _ _) as [msg|c]; [discriminate|];
   injection H as <- <-; reflexivity).
Qed.

Lemma user_headers_tenant (claims : Claims) (hs : header_list) :
  hdr_get "X-Tenant-ID" (user_headers claims hs) = Some (TenantID claims).
Proof.
  unfold user_headers. cbv zeta.
  destruct (Nat.ltb 0 _); rewrite ?hdr_get_set_other by reflexivity; apply hdr_get_set_same.
Qed.

(** X18: after [Auth] accepted a token, [TenantExtractor] (given the
    [tenant_id] local [Auth] stored) sets the tenant local and the
    X-Tenant-ID request header to the token's tenant; when the token has an
    empty tenant, to the first label of a host with at least three
    dot-separated labels, and otherwise to "".  An X-Tenant-ID header sent
    by the client is never used, since [Auth] has overwritten it. *)
Theorem auth_tenant_header (cfg : AuthConfig) (decode : string -> option Token) (now : Z) (cx : Ctx)
    (hs : header_list) (claims : Claims) (host : string) :
  Auth cfg decode now cx = AuthNext hs (Some claims) ->
  let tenant := if String.eqb (TenantID claims) "" then
                  (if Nat.leb 3 (length (Split host ".")) then nth 0 (Split host ".") "" else "")
                else TenantID claims in
  fst (TenantExtractor (Some (TenantID claims)) hs host) = Some tenant
  /\ hdr_get "X-Tenant-ID" (snd (TenantExtractor (Some (TenantID claims)) hs host)) = Some tenant.
Proof.
  intros H. apply Auth_next_user in H. subst hs. cbv zeta.
  assert (Hg := user_headers_tenant claims (cx_headers cx)).
  assert (Hc : c_Get "X-Tenant-ID" (user_headers claims (cx_headers cx)) = TenantID claims)
    by (unfold c_Get; rewrite Hg; reflexivity).
  unfold TenantExtractor. cbv zeta.
  destruct (String.eqb (TenantID claims) "") eqn:E.
  - apply String.eqb_eq in E. rewrite Hc, E. cbn [String.eqb].
    destruct (Nat.leb 3 _).
    + destruct (String.eqb (nth 0 (Split host ".") "") "") eqn:E2; cbn [negb].
      * apply String.eqb_eq in E2. rewrite E2. cbn [fst snd]. split; [rewrite ?E; reflexivity|]. rewrite Hg, E. reflexivity.
      * split; [reflexivity|]. apply hdr_get_set_same.
    + cbn [String.eqb negb fst snd]. split; [rewrite ?E; reflexivity|]. rewrite Hg, E. reflexivity.
  - rewrite !E. cbn [negb fst snd]. rewrite ?E. cbn [negb fst snd]. split; [reflexivity|]. apply hdr_get_set_same.
Qed.

Definition tenantless_claims : Claims :=
  {| UserID := "u2"; TenantID := ""; Email := "u2@example.com"; Roles := [];
     ExpiresAt := None; NotBefore := None |}.

Definition tenantless_decode (s : string) : option Token :=
  if String.eqb s "tok2" then Some {| Method := HS256; SignedWith := "secret"; TokenClaims := tenantless_claims |}
  else None.

Definition spoof_ctx : Ctx :=
  {| cx_path := "/api/v1/orders"; cx_method := "GET";
     cx_headers := [("Authorization", "Bearer tok2"); ("X-Tenant-ID", "other")]; cx_isPublic := None |}.

Lemma auth_tenant_header_witness :
  Auth (DefaultAuthConfig "secret") tenantless_decode 0 spoof_ctx
    = AuthNext (user_headers tenantless_claims (cx_headers spoof_ctx)) (Some tenantless_claims)
  /\ hdr_get "X-Tenant-ID" (snd (TenantExtractor (Some "") (user_headers tenantless_claims (cx_headers spoof_ctx))
                                   "acme.example.com")) = Some "acme".
Proof.
  assert (H : Auth (DefaultAuthConfig "secret") tenantless_decode 0 spoof_ctx
              = AuthNext (user_headers tenantless_claims (cx_headers spoof_ctx)) (Some tenantless_claims))
    by reflexivity.
  split; [exact H|].
  destruct (auth_tenant_header _ _ _ _ _ _ "acme.example.com" H) as [_ H2].
  exact H2.
Defined.

Lemma fold_public_lookup (routes : list Router.RouteCfg) (m : gmap string (list string)) (path : string) :
  fold_left (fun m route => if Router.r_Public route
                            then <[Router.r_Path route := Router.r_Methods route]> m else m) routes m !! path
  = match List.find (fun r => Router.r_Public r && String.eqb (Router.r_Path r) path) (rev routes) with
    | Some r => Some (Router.r_Methods r)
    | None => m !! path
    end.
Proof.
  induction routes as [|r routes IH] using rev_ind; [reflexivity|].
  rewrite fold_left_app, rev_app_distr. cbn [fold_left rev app List.find].
  destruct (Router.r_Public r) eqn:Ep; cbn [andb].
  - destruct (String.eqb (Router.r_Path r) path) eqn:Eq.
    + apply String.eqb_eq in Eq. subst path. apply lookup_insert_eq.
    + apply String.eqb_neq in Eq. rewrite lookup_insert_ne by exact Eq. exact IH.
  - exact IH.
Qed.

(** X19: the public paths [NewAuthMiddleware] builds: a path is public
    for the methods of the last public route whose path is exactly that
    path; a route path covers none of its sub-paths, and a later public
    route with the same path replaces the methods of an earlier one. *)
Theorem new_auth_config_public_paths (secret : string) (routes : list Router.RouteCfg) (path : string) :
  PublicPaths (NewAuthConfig secret routes) !! path
  = option_map Router.r_Methods
      (List.find (fun r => Router.r_Public r && String.eqb (Router.r_Path r) path) (rev routes)).
Proof.
  unfold NewAuthConfig. cbn [PublicPaths DefaultAuthConfig]. rewrite fold_public_lookup.
  destruct (List.find _ _); reflexivity.
Qed.

(** X20: with the configuration of [NewAuthMiddleware], any request whose
    path starts with "/health", "/ready", "/live" or "/metrics" is passed on
    without a token and without claims, whatever follows the prefix (as in
    "/metrics-internal") and whatever the routes. *)
Theorem new_auth_config_skip_prefixes (secret : string) (routes : list Router.RouteCfg)
    (decode : string -> option Token) (now : Z) (p rest method : string) (hs : header_list)
    (isPublic : option bool) :
  In p ["/health"; "/ready"; "/live"; "/metrics"] ->
  Auth (NewAuthConfig secret routes) decode now
       {| cx_path := p ++ rest; cx_method := method; cx_headers := hs; cx_isPublic := isPublic |}
  = AuthNext hs None.
Proof.
  intros Hp. unfold Auth. cbn [cx_path cx_headers].
  replace (existsb _ (SkipPrefixes (NewAuthConfig secret routes))) with true; [reflexivity|].
  symmetry. apply existsb_exists. exists p. split; [exact Hp|]. apply ProxyFacts.HasPrefix_app.
Qed.

Lemma new_auth_config_skip_prefixes_witness :
  In "/metrics" ["/health"; "/ready"; "/live"; "/metrics"] /\
  Auth (NewAuthConfig "secret" []) (fun _ => None) 0
       {| cx_path := "/metrics" ++ "-internal/dump"; cx_method := "GET"; cx_headers := [];
          cx_isPublic := None |} = AuthNext [] None.
Proof.
  split; [simpl; tauto|].
  exact (new_auth_config_skip_prefixes "secret" [] (fun _ => None) 0 "/metrics" "-internal/dump" "GET" [] None
           ltac:(simpl; tauto)).
Defined.

(** X21: [RequestID] followed by [Forward]: when the request is sent
    upstream, its X-Request-ID header is the client's X-Request-ID (looked
    up by case-insensitive name) when that is non-empty, and the generated
    UUID otherwise. *)
Theorem request_id_propagates (services : registry) (do_ : transport) (rq : ClientRequest)
    (resp0 : header_list) (uuid serviceName stripPrefix : string) (up : UpstreamRequest) (resp : Response) :
  Forward services do_ rq (fst (RequestID uuid (rq_headers rq) resp0))
          (c_Get "X-Request-ID" (fst (RequestID uuid (rq_headers rq) resp0))) serviceName stripPrefix
    = (Some up, resp) ->
  hdr_get "X-Request-ID" (up_headers up)
  = Some (if String.eqb (c_Get "X-Request-ID" (rq_headers rq)) "" then uuid
          else c_Get "X-Request-ID" (rq_headers rq)).
Proof.
  unfold RequestID. cbv zeta. cbn [fst].
  set (rid := if String.eqb (c_Get "X-Request-ID" (rq_headers rq)) "" then uuid
              else c_Get "X-Request-ID" (rq_headers rq)).
  assert (Hc : c_Get "X-Request-ID" (hdr_set "X-Request-ID" rid resp0) = rid)
    by (unfold c_Get; rewrite hdr_get_set_same; reflexivity).
  rewrite Hc. unfold Forward. intros H.
  destruct (services !! serviceName) as [svc|]; [|discriminate].
  destruct (negb (Healthy svc)); [discriminate|].
  destruct (do_ svc _) as [err|r]; injection H as <- _; cbn [up_headers];
    unfold upstream_headers; cbv zeta; apply hdr_get_set_same.
Qed.

Definition echo_registry : registry :=
  {[ "orders" := {| Name := "orders"; URL := "http://orders:8082"; HealthPath := "/health"; Healthy := true |} ]}.

Definition echo_transport : transport := fun _ req => inr {| ur_status := 200; ur_headers := []; ur_body := up_uri req |}.

Definition traced_request : ClientRequest :=
  {| rq_method := "GET"; rq_path := "/api/v1/orders"; rq_query := ""; rq_headers := [("x-request-id", "abc")];
     rq_body := ""; rq_host := "gw"; rq_ip := "10.0.0.2"; rq_protocol := "http" |}.

Lemma request_id_propagates_witness :
  exists up resp,
    Forward echo_registry echo_transport traced_request (fst (RequestID "uuid-1" (rq_headers traced_request) []))
      (c_Get "X-Request-ID" (fst (RequestID "uuid-1" (rq_headers traced_request) []))) "orders" ""
    = (Some up, resp)
    /\ hdr_get "X-Request-ID" (up_headers up) = Some "abc".
Proof.
  eexists _, _. split; [reflexivity|].
  exact (request_id_propagates echo_registry echo_transport traced_request [] "uuid-1" "orders" "" _ _ eq_refl).
Defined.

End AuthFacts.

Module RetryFacts.
Import Retry.
Local Open Scope Z_scope.


(** [a; a+1; ...] ([n] elements). *)
Fixpoint zseq (a : Z) (n : nat) : list Z :=
  match n with
  | O => []
  | S n' => a :: zseq (a + 1) n'
  end.

Lemma attempts_first_success (rm : RetryMiddleware) (ma w : Z) (next : Z -> Z * option string) (k : Z) :
  forall fuel a le,
  a <= k -> k < a + Z.of_nat fuel -> k <= ma ->
  (forall j, a <= j < k -> 500 <= fst (next j)) -> fst (next k) < 500 ->
  attempts rm ma w next fuel a le
  = (snd (next k), map (sleepTime rm w) (zseq a (Z.to_nat (k - a))), S (Z.to_nat (k - a))).
Proof.
  induction fuel as [|fuel IH]; intros a le Hak Hkf Hkm Hfail Hok; [lia|].
  cbn [attempts]. destruct (next a) as [st err] eqn:En.
  destruct (Z.eq_dec a k) as [->|Hne].
  - rewrite En in Hok. cbn [fst snd] in Hok |- *.
    replace (Z.ltb st 500) with true by (symmetry; apply Z.ltb_lt; exact Hok).
    rewrite Z.sub_diag, En. reflexivity.
  - assert (Hst : 500 <= st) by (specialize (Hfail a ltac:(lia)); rewrite En in Hfail; exact Hfail).
    replace (Z.ltb st 500) with false by (symmetry; apply Z.ltb_ge; exact Hst).
    replace (Z.ltb a ma) with true by (symmetry; apply Z.ltb_lt; lia).
    rewrite (IH (a + 1) err ltac:(lia) ltac:(lia) Hkm ltac:(intros j Hj; apply Hfail; lia) Hok).
    replace (Z.to_nat (k - a)) with (S (Z.to_nat (k - (a + 1)))) by lia.
    reflexivity.
Qed.

Lemma attempts_all_fail (rm : RetryMiddleware) (ma w : Z) (next : Z -> Z * option string) :
  forall fuel a le,
  a + Z.of_nat fuel = ma + 1 -> (1 <= fuel)%nat ->
  (forall j, a <= j <= ma -> 500 <= fst (next j)) ->
  attempts rm ma w next fuel a le
  = (snd (next ma), map (sleepTime rm w) (zseq a (pred fuel)), fuel).
Proof.
  induction fuel as [|fuel IH]; intros a le Hf H1 Hfail; [lia|].
  cbn [attempts]. destruct (next a) as [st err] eqn:En.
  assert (Hst : 500 <= st) by (specialize (Hfail a ltac:(lia)); rewrite En in Hfail; exact Hfail).
  replace (Z.ltb st 500) with false by (symmetry; apply Z.ltb_ge; exact Hst).
  destruct fuel as [|fuel].
  - assert (a = ma) by lia. subst a.
    rewrite Z.ltb_irrefl. rewrite En. reflexivity.
  - replace (Z.ltb a ma) with true by (symmetry; apply Z.ltb_lt; lia).
    rewrite (IH (a + 1) err ltac:(lia) ltac:(lia) ltac:(intros j Hj; apply Hfail; lia)).
    reflexivity.
Qed.

(** X22: the retry middleware calls the handler for attempts 0, 1, ... up to
    maxAttempts and returns the error of the first attempt whose status is below
    500, after sleeping [sleepTime] once per earlier failed attempt; when all
    maxAttempts+1 calls fail it returns the error of the last one, with no sleep
    after it; when maxAttempts is negative the handler is never called and nil is
    returned. *)
Theorem retry_attempts (rm : RetryMiddleware) (route_retry : option (Z * option Z))
    (next : Z -> Z * option string) :
  let ma := fst (retry_settings rm route_retry) in
  let w := snd (retry_settings rm route_retry) in
  (ma < 0 -> Middleware rm route_retry next = (None, [], O))
  /\ (forall k, 0 <= k <= ma -> (forall j, 0 <= j < k -> 500 <= fst (next j)) -> fst (next k) < 500 ->
        Middleware rm route_retry next
        = (snd (next k), map (sleepTime rm w) (zseq 0 (Z.to_nat k)), S (Z.to_nat k)))
  /\ (0 <= ma -> (forall j, 0 <= j <= ma -> 500 <= fst (next j)) ->
        Middleware rm route_retry next
        = (snd (next ma), map (sleepTime rm w) (zseq 0 (Z.to_nat ma)), Z.to_nat (ma + 1))).
Proof.
  intros ma w. unfold Middleware.
  destruct (retry_settings rm route_retry) as [m w'] eqn:Es. cbn [fst snd] in ma, w.
  subst ma w. split; [|split].
  - intros Hm. replace (Z.to_nat (m + 1)) with O by lia. reflexivity.
  - intros k Hk Hfail Hok.
    rewrite (attempts_first_success rm m w' next k (Z.to_nat (m + 1)) 0 None ltac:(lia) ltac:(lia)
               ltac:(lia) Hfail Hok).
    rewrite Z.sub_0_r. reflexivity.
  - intros Hm Hfail.
    rewrite (attempts_all_fail rm m w' next (Z.to_nat (m + 1)) 0 None ltac:(lia) ltac:(lia) Hfail).
    replace (pred (Z.to_nat (m + 1))) with (Z.to_nat m) by lia. reflexivity.
Qed.

Lemma wrap64_id (x : Z) : - 2 ^ 63 <= x < 2 ^ 63 -> wrap64 x = x.
Proof.
  intros H. unfold wrap64. destruct (Z_le_gt_dec 0 x) as [Hx|Hx].
  - rewrite Z.mod_small by lia. replace (Z.leb (2 ^ 63) x) with false by (symmetry; apply Z.leb_gt; lia).
    reflexivity.
  - replace (x mod 2 ^ 64) with (x + 2 ^ 64)
      by (apply Z.mod_unique with (-1); lia).
    replace (Z.leb (2 ^ 63) (x + 2 ^ 64)) with true by (symmetry; apply Z.leb_le; lia). lia.
Qed.

Lemma sleepTime_min (rm : RetryMiddleware) (w a : Z) :
  sleepTime rm w a = Z.min (MaxWaitTime rm) (wrap64 (w * wrap64 (Z.shiftl 1 a))).
Proof.
  unfold sleepTime. cbv zeta. destruct (Z.ltb _ _) eqn:E; [apply Z.ltb_lt in E | apply Z.ltb_ge in E]; lia.
Qed.

(** X23: the backoff before retrying attempt [a+1] is [waitTime * 2^a] capped
    at [MaxWaitTime] when the product fits in 64 bits and [a < 63]; from attempt
    64 on the shift [1<<attempt] is 0, so the sleep is [min MaxWaitTime 0]. *)
Theorem retry_backoff (rm : RetryMiddleware) (w : Z) :
  (forall a, 0 <= a < 63 -> - 2 ^ 63 <= w * 2 ^ a < 2 ^ 63 ->
     sleepTime rm w a = Z.min (MaxWaitTime rm) (w * 2 ^ a))
  /\ (forall a, 64 <= a -> sleepTime rm w a = Z.min (MaxWaitTime rm) 0).
Proof.
  split.
  - intros a Ha Hw. rewrite sleepTime_min, Z.shiftl_1_l.
    assert (Hp : 0 < 2 ^ a < 2 ^ 63)
      by (split; [apply Z.pow_pos_nonneg; lia | apply Z.pow_lt_mono_r; lia]).
    rewrite (wrap64_id (2 ^ a)) by lia. rewrite (wrap64_id (w * 2 ^ a)) by exact Hw. reflexivity.
  - intros a Ha. rewrite sleepTime_min, Z.shiftl_1_l.
    assert (Hz : wrap64 (2 ^ a) = 0).
    { unfold wrap64. replace a with ((a - 64) + 64) by lia.
      rewrite Z.pow_add_r by lia. rewrite Z.mod_mul by (apply Z.pow_nonzero; lia). reflexivity. }
    rewrite Hz, Z.mul_0_r. reflexivity.
Qed.

End RetryFacts.

Module BreakerStateFacts.
Import Breaker.
Local Open Scope Z_scope.

(** X24: [GetAllStates] and [GetState] agree: [GetAllStates] has an entry
    for exactly the services that have a breaker, holding the string of the
    state [GetState] reports for that service at the same instant, and leaves
    that service's breaker as [GetState] leaves it; [GetState] on a service
    with no breaker reports closed and creates none. *)
Theorem get_all_states_agrees (m : breakers) (clock : string -> Z) (name : string) :
  snd (GetAllStates m clock) !! name
    = match m !! name with
      | None => None
      | Some _ => Some (State_String (snd (GetState m name (clock name))))
      end
  /\ (m !! name = None -> GetState m name (clock name) = (m, StateClosed))
  /\ dom (fst (GetAllStates m clock)) = dom m
  /\ fst (GetAllStates m clock) !! name = fst (GetState m name (clock name)) !! name.
Proof.
  unfold GetAllStates, GetState. cbn [fst snd].
  split; [|split; [|split]].
  - rewrite map_lookup_imap. destruct (m !! name); reflexivity.
  - intros ->. reflexivity.
  - apply set_eq. intros i. rewrite !elem_of_dom, map_lookup_imap.
    destruct (m !! i); cbn; split; intros [? ?]; eauto; discriminate.
  - rewrite map_lookup_imap. destruct (m !! name) eqn:E; cbn.
    + rewrite lookup_insert_eq. reflexivity.
    + exact (eq_sym E).
Qed.


Lemma currentState_idem (cb : CircuitBreaker) (now : Z) :
  0 <= interval cb -> currentState (currentState cb now) now = currentState cb now.
Proof.
  intros Hi.
  assert (Hfix : currentState cb now = cb -> currentState (currentState cb now) now = currentState cb now)
    by (intros Hc; rewrite Hc; exact Hc).
  destruct (state cb) eqn:Es.
  - destruct (expiry cb) as [t|] eqn:Ee.
    + destruct (Z.ltb t now) eqn:Et.
      * assert (Hc : currentState cb now = toNewGeneration cb now)
          by (unfold currentState; rewrite Es, Ee, Et; reflexivity).
        rewrite Hc. unfold currentState at 1, toNewGeneration, with_state. cbn [state expiry interval].
        rewrite Es. destruct (Z.eqb (interval cb) 0) eqn:Ez; [reflexivity|].
        replace (Z.ltb (now + interval cb) now) with false by (symmetry; apply Z.ltb_ge; lia).
        reflexivity.
      * apply Hfix. unfold currentState. rewrite Es, Ee, Et. reflexivity.
    + apply Hfix. unfold currentState. rewrite Es, Ee. reflexivity.
  - apply Hfix. unfold currentState. rewrite Es. reflexivity.
  - destruct (expired (expiry cb) now) eqn:Ex.
    + assert (Hc : currentState cb now = setState cb StateHalfOpen now)
        by (unfold currentState; rewrite Es, Ex; reflexivity).
      rewrite Hc. unfold setState. rewrite Es. cbn [state_eqb].
      unfold currentState, toNewGeneration, with_state. cbn [state]. reflexivity.
    + apply Hfix. unfold currentState. rewrite Es, Ex. reflexivity.
Qed.

(** X25: reading a breaker's state is stable: when the breaker's interval is
    non-negative (as [NewCircuitBreaker] makes it), a second [GetState] at
    the same instant reports the same state and leaves the breakers as the
    first call left them, so reading the state twice does not start a second
    generation. *)
Theorem get_state_stable (m : breakers) (name : string) (now : Z) :
  (forall cb, m !! name = Some cb -> 0 <= interval cb) ->
  GetState (fst (GetState m name now)) name now = GetState m name now.
Proof.
  intros Hi. unfold GetState. destruct (m !! name) as [cb|] eqn:E; [|cbn [fst]; rewrite E; reflexivity].
  unfold cb_State. cbn [fst snd]. rewrite lookup_insert_eq. cbn [fst snd].
  rewrite (currentState_idem cb now (Hi cb eq_refl)). rewrite insert_insert_eq. reflexivity.
Qed.

(** A configuration with a 10 ns interval and a 5 ns open timeout. *)
Definition state_cfg : CircuitConfig := {| cc_Enabled := true; cc_MaxRequests := 1; cc_Interval := 10;
  cc_Timeout := 5; FailureThreshold := 3 |}.

Lemma get_state_stable_witness :
  (forall cb, ({[ "users" := NewCircuitBreaker state_cfg 0 ]} : breakers) !! "users"%string = Some cb -> 0 <= interval cb)
  /\ GetState (fst (GetState {[ "users" := NewCircuitBreaker state_cfg 0 ]} "users" 20)) "users" 20
     = GetState {[ "users" := NewCircuitBreaker state_cfg 0 ]} "users" 20.
Proof.
  assert (H : forall cb, ({[ "users" := NewCircuitBreaker state_cfg 0 ]} : breakers) !! "users"%string = Some cb -> 0 <= interval cb).
  { intros cb Hl. rewrite lookup_singleton_eq in Hl. injection Hl as <-. cbn. lia. }
  split; [exact H | exact (get_state_stable _ "users" 20 H)].
Defined.

End BreakerStateFacts.
